(** * smallsh: command execution and job control, embedded and verified

    A shallow embedding of [smallsh.c].  C [int]s are [Z], C strings are
    [string], the [args] array is a list of nullable slots, the global
    variables form one record that every function threads explicitly, and
    what the program prints or asks of the kernel is returned as a trace
    of events.  Answers of the kernel ([fork], [waitpid], [open], [execvp],
    [getpid]) are inputs of the functions that consume them. *)

From Stdlib Require Import ZArith List String Ascii Lia Bool DecimalString.
Import ListNotations.
Open Scope string_scope.

(* ================================================================== *)
(** * Part I: definitions                                              *)
(* ================================================================== *)

(** ** Constants *)

Definition MAX_COMMAND_LENGTH : nat := 2048.
Definition MAX_ARGUMENTS : nat := 512.

(** The range of a C [int], and [x + 1] as the machine computes it on an
    [int]: modulo 2^32, read back as a signed value. *)
Definition INT_MAX : Z := 2147483647%Z.
Definition INT_MIN : Z := (-2147483648)%Z.

Definition wrap_int (z : Z) : Z :=
  ((z + 2147483648) mod 4294967296 - 2147483648)%Z.

Definition int_incr (x : Z) : Z := wrap_int (x + 1).

(** ** Text helpers *)

Definition newline : ascii := ascii_of_nat 10.
Definition nl : string := String newline "".

(** What [printf("%d", z)] writes. *)
Definition dec (z : Z) : string := NilZero.string_of_int (Z.to_int z).

(** ** The wait-status macros of <sys/wait.h>

    The macros are not part of the repository; these are the definitions of
    the C library the program is built against (low seven bits: terminating
    signal, second byte: exit code). *)

Definition WTERMSIG (status : Z) : Z := Z.land status 127.
Definition WEXITSTATUS (status : Z) : Z := Z.shiftr (Z.land status 65280) 8.
Definition WIFEXITED (status : Z) : bool := (WTERMSIG status =? 0)%Z.

(** The cast to [signed char] used by [WIFSIGNALED]. *)
Definition signed_char (z : Z) : Z :=
  let m := (z mod 256)%Z in if (m <? 128)%Z then m else (m - 256)%Z.

Definition WIFSIGNALED (status : Z) : bool :=
  (0 <? Z.shiftr (signed_char (Z.land status 127 + 1)) 1)%Z.

(** ** Global variables *)

Record shell_state : Type := mkState {
  current_foreground_pid : Z;
  exit_method : Z;
  z_mode : Z;
  num_background_process : Z
}.

(** The initialisers of the globals, lines 16-25. *)
Definition initial_state : shell_state :=
  {| current_foreground_pid := (-5)%Z;
     exit_method := (-5)%Z;
     z_mode := 0%Z;
     num_background_process := 0%Z |}.

Definition set_exit_method (st : shell_state) (v : Z) : shell_state :=
  {| current_foreground_pid := current_foreground_pid st;
     exit_method := v;
     z_mode := z_mode st;
     num_background_process := num_background_process st |}.

Definition set_current_foreground_pid (st : shell_state) (v : Z) : shell_state :=
  {| current_foreground_pid := v;
     exit_method := exit_method st;
     z_mode := z_mode st;
     num_background_process := num_background_process st |}.

Definition set_num_background_process (st : shell_state) (v : Z) : shell_state :=
  {| current_foreground_pid := current_foreground_pid st;
     exit_method := exit_method st;
     z_mode := z_mode st;
     num_background_process := v |}.

(** ** Observable events *)

Inductive event : Type :=
| Out (text : string)                 (* printf + fflush on stdout *)
| Err (text : string)                 (* fprintf on stderr *)
| Perror (text : string)              (* perror: text, then the errno message *)
| WaitFor (pid : Z) (options : Z)     (* a call of waitpid *)
| Chdir (path : option string).       (* a call of chdir; None is a null pointer *)

Definition WNOHANG : Z := 1%Z.

(** What a call of [waitpid(pid, &status, options)] answers: the value it
    returns and the word it stores through the pointer.  The kernel stores
    only when it returns the id of a child. *)
Record wait_reply : Type := mkReply {
  w_ret : Z;
  w_status : Z
}.

Definition waitpid_store (r : wait_reply) (old : Z) : Z :=
  if (0 <? w_ret r)%Z then w_status r else old.

(** ** Signal-related reporting *)

Definition check_termination (st : shell_state) : list event :=
  if WIFSIGNALED (exit_method st)
  then [Out ("terminated by signal " ++ dec (WTERMSIG (exit_method st)) ++ nl)]
  else [].

(** ** Built-in: status *)

Definition status_line (status : Z) : string :=
  if WIFEXITED status
  then "exit value " ++ dec (WEXITSTATUS status) ++ nl
  else "terminated by signal " ++ dec (WTERMSIG status) ++ nl.

Definition status_command (st : shell_state) : list event :=
  [Out (status_line (exit_method st))].

(** ** Background reaper

    [waitpid(-1, &exit_method, WNOHANG)] is issued only when the counter is
    positive; [reply] is what the kernel answers to it. *)
Definition check_background_processes (st : shell_state) (reply : wait_reply)
  : shell_state * list event :=
  if (0 <? num_background_process st)%Z then
    let completed_process := w_ret reply in
    let st1 := set_exit_method st (waitpid_store reply (exit_method st)) in
    if (0 <? completed_process)%Z then
      (st1,
       [WaitFor (-1)%Z WNOHANG;
        Out ("background pid " ++ dec completed_process ++ " is done: ");
        Out (status_line (exit_method st1))])
    else (st1, [WaitFor (-1)%Z WNOHANG])
  else (st, []).

(** ** C string primitives *)

(** The first [n] characters of [s]: what is left of a string when a
    terminator is written at offset [n]. *)
Fixpoint str_take (n : nat) (s : string) : string :=
  match n, s with
  | S n', String c s' => String c (str_take n' s')
  | _, _ => EmptyString
  end.

(** The string a pointer [s + n] designates. *)
Fixpoint str_drop (n : nat) (s : string) : string :=
  match n, s with
  | S n', String _ s' => str_drop n' s'
  | _, _ => s
  end.

(** [strstr]: offset of the first occurrence of [needle], or [None] for a
    null result. *)
Fixpoint strstr (haystack needle : string) : option nat :=
  if prefix needle haystack then Some 0
  else match haystack with
       | EmptyString => None
       | String _ h => option_map S (strstr h needle)
       end.

(** [snprintf(buffer, size, ...)] keeps at most [size - 1] characters. *)
Definition snprintf (size : nat) (text : string) : string :=
  str_take (size - 1) text.

(** [strncpy(dst, src, n)] copies at most [n] characters. *)
Definition strncpy (src : string) (n : nat) : string := str_take n src.

(** ** Expander *)

(** One pass of the body of the [while] loop of [expand_pid], entered with
    [pos] the offset [strstr] found.  [command] points into the block
    [getline] allocated, of [capacity] bytes; [strncpy] writes exactly
    [MAX_COMMAND_LENGTH] bytes into it, padding with zeros, so a smaller
    block is overrun: [None]. *)
Definition expand_step (capacity : nat) (pid : Z) (command : string)
  (pos : nat) : option string :=
  let start := str_take pos command in
  let restof := str_drop (pos + 2) command in
  let buffer := snprintf MAX_COMMAND_LENGTH (start ++ dec pid ++ restof) in
  if (MAX_COMMAND_LENGTH <=? capacity)%nat
  then Some (strncpy buffer MAX_COMMAND_LENGTH)
  else None.

(** The [while] loop, unrolled at most [fuel] times; [None] when a pass
    overruns the block, or when the fuel runs out before [strstr] answers
    null. *)
Fixpoint expand_pid_loop (fuel : nat) (capacity : nat) (pid : Z)
  (command : string) : option string :=
  match strstr command "$$" with
  | None => Some command
  | Some pos =>
      match fuel with
      | O => None
      | S fuel' =>
          match expand_step capacity pid command pos with
          | Some command' => expand_pid_loop fuel' capacity pid command'
          | None => None
          end
      end
  end.

(** Every pass removes two dollar signs, so the length of the line bounds
    the number of passes. *)
Definition expand_pid (capacity : nat) (pid : Z) (command : string)
  : option string :=
  expand_pid_loop (String.length command) capacity pid command.

(** The expansion as the specification words it: a left-to-right scan in
    which every occurrence of the two-character token, taken without
    overlap, becomes the decimal process id and every other character is
    copied. *)
Fixpoint replace_pid_tokens (pid : Z) (line : string) : string :=
  match line with
  | EmptyString => EmptyString
  | String c rest =>
      match rest with
      | EmptyString => String c EmptyString
      | String c' rest' =>
          if (Ascii.eqb c "$" && Ascii.eqb c' "$")%bool
          then dec pid ++ replace_pid_tokens pid rest'
          else String c (replace_pid_tokens pid rest)
      end
  end.

(** A line cut at its tokens: [segments] are the stretches of text that
    precede each token, [tail] is what follows the last one. *)
Fixpoint join_segments (filler : string) (segments : list string)
  (tail : string) : string :=
  match segments with
  | [] => tail
  | p :: segments' => p ++ filler ++ join_segments filler segments' tail
  end.

(** ** Tokenizer: the [strtok(..., " ")] loop of [shell_loop] *)

Fixpoint strtok_loop (current : string) (text : string) : list string :=
  match text with
  | EmptyString =>
      match current with EmptyString => [] | _ => [current] end
  | String c text' =>
      if Ascii.eqb c " " then
        match current with
        | EmptyString => strtok_loop EmptyString text'
        | _ => current :: strtok_loop EmptyString text'
        end
      else strtok_loop (current ++ String c EmptyString) text'
  end.

Definition tokenize (fullCommand : string) : list string :=
  strtok_loop EmptyString fullCommand.

(** ** File descriptors *)

Inductive open_flags : Type :=
| O_RDONLY
| O_WRONLY
| O_WRONLY_CREAT_TRUNC.             (* O_WRONLY | O_CREAT | O_TRUNC, mode 0644 *)

(** What a descriptor is attached to: something the process was started
    with, or a file it opened itself. *)
Inductive file_desc : Type :=
| Inherited (fd : nat)
| Opened (path : string) (flags : open_flags).

(** Slot [n] of the table is descriptor [n]; [None] is a closed one. *)
Definition fd_table : Type := list (option file_desc).

Definition standard_fds : fd_table :=
  [Some (Inherited 0); Some (Inherited 1); Some (Inherited 2)].

Fixpoint lowest_free (fds : fd_table) : nat :=
  match fds with
  | Some _ :: fds' => S (lowest_free fds')
  | _ => 0
  end.

Fixpoint fd_set (n : nat) (v : option file_desc) (fds : fd_table) : fd_table :=
  match n, fds with
  | O, [] => [v]
  | O, _ :: fds' => v :: fds'
  | S n', [] => None :: fd_set n' v []
  | S n', d :: fds' => d :: fd_set n' v fds'
  end.

Definition fd_get (fd : Z) (fds : fd_table) : option file_desc :=
  if (fd <? 0)%Z then None else nth (Z.to_nat fd) fds None.

(** [open]: the lowest free descriptor, or -1.  A null path never opens. *)
Definition sys_open (can_open : string -> open_flags -> bool)
  (path : option string) (flags : open_flags) (fds : fd_table)
  : fd_table * Z :=
  match path with
  | Some p =>
      if can_open p flags
      then (fd_set (lowest_free fds) (Some (Opened p flags)) fds,
            Z.of_nat (lowest_free fds))
      else (fds, (-1)%Z)
  | None => (fds, (-1)%Z)
  end.

(** [dup2]: fails, changing nothing, when [oldfd] is not open. *)
Definition sys_dup2 (oldfd : Z) (newfd : nat) (fds : fd_table) : fd_table :=
  match fd_get oldfd fds with
  | Some d => fd_set newfd (Some d) fds
  | None => fds
  end.

Definition sys_close (fd : Z) (fds : fd_table) : fd_table :=
  match fd_get fd fds with
  | Some _ => fd_set (Z.to_nat fd) None fds
  | None => fds
  end.

(** ** The argument array *)

(** [char **args]: a slot holds a string or a null pointer. *)
Definition arg_array : Type := list (option string).

(** The array [shell_loop] builds from the tokens of a line. *)
Definition args_of_tokens (tokens : list string) : arg_array :=
  (map Some tokens ++ [None])%list.

(** [args[idx] = NULL]. *)
Fixpoint store_null (idx : nat) (args : arg_array) : arg_array :=
  match idx, args with
  | O, _ :: args' => None :: args'
  | S n, a :: args' => a :: store_null n args'
  | _, [] => []
  end.

(** [args[idx] = s]. *)
Fixpoint store_arg (idx : nat) (s : string) (args : arg_array) : arg_array :=
  match idx, args with
  | O, _ :: args' => Some s :: args'
  | S n, a :: args' => a :: store_arg n s args'
  | _, [] => []
  end.

(** The argument vector [execvp] reads: the slots before the first null. *)
Fixpoint argv_of (args : arg_array) : list string :=
  match args with
  | Some a :: args' => a :: argv_of args'
  | _ => []
  end.

(** ** Redirection resolver *)

(** Lines 381-385: [args[args_to_remove[i]] = NULL] for every recorded
    index. *)
Definition remove_args (pending : list nat) (args : arg_array) : arg_array :=
  fold_left (fun a idx => store_null idx a) pending args.

Inductive redirection_result : Type :=
| RedirDone (fds : fd_table) (args : arg_array)               (* return 0 *)
| RedirFailed (fds : fd_table) (redirection_file : option string) (* return 1 *)
| RedirUndefined.                 (* null dereference or array overrun *)

(** The local variables of [redirection] that the first loop updates. *)
Record redir_locals : Type := mkLocals {
  r_fds : fd_table;
  output_file : Z;
  input_file : Z;
  args_to_remove : list nat
}.

Inductive loop_step : Type :=
| Next (l : redir_locals)
| Stop (r : redirection_result).

(** The two stores into [args_to_remove] of one branch; the array has
    [MAX_ARGUMENTS] cells. *)
Definition record_pair (i : nat) (pending : list nat) : option (list nat) :=
  if (List.length pending + 2 <=? MAX_ARGUMENTS)%nat
  then Some (pending ++ [i; i + 1])%list
  else None.

(** The branch for ">" (lines 312-331). *)
Definition output_branch (can_open : string -> open_flags -> bool)
  (args : arg_array) (i : nat) (l : redir_locals) : loop_step :=
  match nth_error args (i + 1) with
  | None => Stop RedirUndefined
  | Some target =>
      let (fds1, fd) := sys_open can_open target O_WRONLY_CREAT_TRUNC (r_fds l) in
      if (fd =? -1)%Z then Stop (RedirFailed fds1 target)
      else
        match record_pair i (args_to_remove l) with
        | None => Stop RedirUndefined
        | Some pending =>
            Next {| r_fds := sys_close fd (sys_dup2 fd 1 fds1);
                    output_file := fd;
                    input_file := input_file l;
                    args_to_remove := pending |}
        end
  end.

(** The branch for "<" (lines 333-351). *)
Definition input_branch (can_open : string -> open_flags -> bool)
  (args : arg_array) (i : nat) (l : redir_locals) : loop_step :=
  match nth_error args (i + 1) with
  | None => Stop RedirUndefined
  | Some target =>
      let (fds1, fd) := sys_open can_open target O_RDONLY (r_fds l) in
      if (fd =? -1)%Z then Stop (RedirFailed fds1 target)
      else
        match record_pair i (args_to_remove l) with
        | None => Stop RedirUndefined
        | Some pending =>
            Next {| r_fds := sys_close fd (sys_dup2 fd 0 fds1);
                    output_file := output_file l;
                    input_file := fd;
                    args_to_remove := pending |}
        end
  end.

(** One pass of the first loop: both [if]s, in order. *)
Definition redirection_body (can_open : string -> open_flags -> bool)
  (args : arg_array) (i : nat) (l : redir_locals) : loop_step :=
  match nth_error args i with
  | Some (Some a) =>
      let after_output :=
        if a =? ">" then output_branch can_open args i l else Next l in
      match after_output with
      | Stop r => Stop r
      | Next l1 => if a =? "<" then input_branch can_open args i l1 else Next l1
      end
  | _ => Stop RedirUndefined                    (* strcmp on a null pointer *)
  end.

(** [for (int i = 0; i < count - 1; i++)], with [n] passes left. *)
Fixpoint redirection_loop (can_open : string -> open_flags -> bool)
  (args : arg_array) (n : nat) (i : nat) (l : redir_locals) : loop_step :=
  match n with
  | O => Next l
  | S n' =>
      match redirection_body can_open args i l with
      | Stop r => Stop r
      | Next l' => redirection_loop can_open args n' (S i) l'
      end
  end.

(** [redirection(args, count, is_in_background)].  The declaration
    [int input_file, output_file = -5;] initialises [output_file] only:
    [garbage] is the indeterminate value [input_file] starts with. *)
Definition redirection (can_open : string -> open_flags -> bool)
  (garbage : Z) (fds0 : fd_table)
  (args : arg_array) (count : nat) (is_in_background : Z)
  : redirection_result :=
  let (fds1, output_null_file) :=
    sys_open can_open (Some "/dev/null") O_WRONLY fds0 in
  let (fds2, input_null_file) :=
    sys_open can_open (Some "/dev/null") O_RDONLY fds1 in
  match redirection_loop can_open args (count - 1) 0
          {| r_fds := fds2; output_file := (-5)%Z; input_file := garbage;
             args_to_remove := [] |} with
  | Stop r => r
  | Next l =>
      let fds3 :=
        if (output_file l =? -5)%Z then r_fds l
        else sys_dup2 (output_file l) 1 (r_fds l) in
      let fds4 :=
        if (input_file l =? -5)%Z then fds3
        else sys_dup2 (input_file l) 0 fds3 in
      let fds5 :=
        if ((output_file l =? -5)%Z && (is_in_background =? 1)%Z)%bool
        then sys_dup2 output_null_file 1 fds4 else fds4 in
      let fds6 :=
        if ((input_file l =? -5)%Z && (is_in_background =? 1)%Z)%bool
        then sys_dup2 input_null_file 0 fds5 else fds5 in
      RedirDone fds6 (remove_args (args_to_remove l) args)
  end.

(** ** Process launcher *)

(** What the kernel answers during one pass of the main loop. *)
Record kernel : Type := mkKernel {
  k_getpid : Z;                                  (* getpid() in the shell *)
  k_can_open : string -> open_flags -> bool;     (* does open() succeed *)
  k_can_exec : string -> bool;                   (* does execvp() succeed *)
  k_fds : fd_table;                 (* descriptors a child starts with *)
  k_garbage : Z;                    (* stack content under [input_file] *)
  k_fork : Z;                       (* what fork() returns *)
  k_wait : wait_reply;              (* answer to the foreground waitpid *)
  k_reap : wait_reply;              (* answer to the reaper's waitpid *)
  k_home : option string;           (* getenv("HOME") *)
  k_cwd : string;                   (* getcwd() *)
  k_chdir : option string -> bool;  (* does chdir() succeed *)
  k_bufsize : nat                   (* size of the block getline allocated *)
}.

(** Lines 439-448, run by parent and child alike: the array, the count and
    [background_command] they leave.  [None]: [args[count - 1]] is not a
    string. *)
Definition strip_background (st : shell_state) (args : arg_array) (count : nat)
  : option (arg_array * nat * Z) :=
  match count with
  | O => None
  | S last =>
      match nth_error args last with
      | Some (Some a) =>
          if a =? "&"
          then Some (store_null last args, last,
                     if (z_mode st =? 0)%Z then 1%Z else 0%Z)
          else Some (args, count, 0%Z)
      | _ => None
      end
  end.

Inductive child_result : Type :=
| Executes (file : string) (argv : list string) (fds : fd_table)
           (sigint_default : bool)       (* execvp replaced the image *)
| ExecFails (file : string) (argv : list string) (trace : list event)
            (code : Z)                   (* execvp returned; exit(1) *)
| RedirectionFails (trace : list event) (code : Z)
| ChildUndefined.

Inductive parent_result : Type :=
| ShellContinues (st : shell_state) (trace : list event)
| ShellExits (code : Z) (trace : list event)
| ShellCallsExit                         (* the exit built-in *)
| ShellUndefined.

Inductive fork_side : Type :=
| InChild (r : child_result)
| InParent (r : parent_result).

(** [case 0] of the switch.  The child's own copy of the globals is
    discarded with its image and is not returned. *)
Definition run_fork_child (k : kernel) (args : arg_array) (count : nat)
  (background_command : Z) : child_result :=
  let sigint_default := (background_command =? 0)%Z in
  match redirection (k_can_open k) (k_garbage k) (k_fds k)
          args count background_command with
  | RedirUndefined => ChildUndefined
  | RedirFailed _ file =>
      RedirectionFails
        [Out ("bash: " ++ match file with Some f => f | None => "(null)" end
                ++ ": No such file or directory" ++ nl)] 1%Z
  | RedirDone fds args' =>
      match nth_error args' 0 with
      | Some (Some file) =>
          if k_can_exec k file
          then Executes file (argv_of args') fds sigint_default
          else ExecFails file (argv_of args')
                 [Err ("bash: " ++ file ++ ": command not found" ++ nl)] 1%Z
      | _ => ChildUndefined                    (* execvp on a null pointer *)
      end
  end.

(** [default] of the switch. *)
Definition run_fork_parent (k : kernel) (st : shell_state)
  (background_command : Z) : parent_result :=
  let spawnPid := k_fork k in
  if (background_command =? 0)%Z then
    let st1 := set_current_foreground_pid st spawnPid in
    let st2 := set_exit_method st1 (waitpid_store (k_wait k) (exit_method st1)) in
    ShellContinues st2 (WaitFor spawnPid 0%Z :: check_termination st2)
  else
    ShellContinues
      (set_num_background_process st (int_incr (num_background_process st)))
      [Out ("Background pid is " ++ dec spawnPid ++ nl)].

(** [run_fork(args, count)], in the process where [fork] returned
    [k_fork k]. *)
Definition run_fork (k : kernel) (st : shell_state) (args : arg_array)
  (count : nat) : fork_side :=
  match strip_background st args count with
  | None => if (k_fork k =? 0)%Z then InChild ChildUndefined
            else InParent ShellUndefined
  | Some (args1, count1, background_command) =>
      if (k_fork k =? -1)%Z then
        InParent (ShellExits 1%Z [Perror "fork() failed!"])
      else if (k_fork k =? 0)%Z then
        InChild (run_fork_child k args1 count1 background_command)
      else
        InParent (run_fork_parent k st background_command)
  end.

(** The argument vector a child hands to [execvp], when it gets there. *)
Definition execvp_argv (r : fork_side) : option (list string) :=
  match r with
  | InChild (Executes _ argv _ _) => Some argv
  | InChild (ExecFails _ argv _ _) => Some argv
  | _ => None
  end.

(** ** Built-in: cd *)

(** [change_directory(args, count)].  With an argument the path is built in
    [char cwd[MAX_COMMAND_LENGTH]] by [strcpy] and [strcat], which do not
    check its size: a path that does not fit with its terminator overruns
    the array, [None]. *)
Definition change_directory (k : kernel) (args : arg_array) (count : nat)
  : option (list event) :=
  let attempt (path : option string) :=
    if k_chdir k path then [Chdir path]
    else [Chdir path; Perror "Error changing directory"] in
  if (count =? 1)%nat then Some (attempt (k_home k))
  else
    match nth_error args 1 with
    | Some (Some a) =>
        let cwd :=
          match a with
          | String "/" _ => a
          | _ => k_cwd k ++ "/" ++ a
          end in
        if (MAX_COMMAND_LENGTH <=? String.length cwd)%nat then None
        else Some (attempt (Some cwd))
    | _ => None
    end.

(** ** Built-in: exit, over a table of processes *)

Inductive sig_action : Type := SigDefault | SigIgnored | SigCaught.

Inductive proc_status : Type :=
| Running
| Exited (code : Z)
| Killed (signal : Z).

Record process : Type := mkProcess {
  p_pid : Z;
  p_pgid : Z;
  p_action : Z -> sig_action;       (* disposition of each signal *)
  p_status : proc_status
}.

Definition SIGTERM : Z := 15%Z.

(** Default action of the signals the shell sends: termination. *)
Definition deliver (sig : Z) (p : process) : process :=
  match p_status p, p_action p sig with
  | Running, SigDefault =>
      {| p_pid := p_pid p; p_pgid := p_pgid p; p_action := p_action p;
         p_status := Killed sig |}
  | _, _ => p
  end.

(** Which processes [kill(pid, sig)] addresses, as kill(2) has it. *)
Definition kill_addresses (caller : process) (pid : Z) (p : process) : bool :=
  if (0 <? pid)%Z then (p_pid p =? pid)%Z
  else if (pid =? 0)%Z then (p_pgid p =? p_pgid caller)%Z
  else if (pid =? -1)%Z
       then (negb (p_pid p =? 1)%Z && negb (p_pid p =? p_pid caller)%Z)%bool
       else (p_pgid p =? - pid)%Z.

Definition sys_kill (caller : process) (pid sig : Z) (p : process) : process :=
  if kill_addresses caller pid p then deliver sig p else p.

(** [exit_shell()]: [self] is the shell, [others] every other process.  A
    signal a process sends to itself is delivered before [kill] returns, so
    [exit(0)] runs only if the shell is still running then. *)
Definition exit_shell (self : process) (others : list process)
  : process * list process :=
  let shell_pid := p_pid self in
  let group_pid := p_pgid self in
  let self1 := sys_kill self (- group_pid)%Z SIGTERM self in
  let others1 := map (sys_kill self (- group_pid)%Z SIGTERM) others in
  match p_status self1 with
  | Running =>
      ({| p_pid := p_pid self1; p_pgid := p_pgid self1;
          p_action := p_action self1; p_status := Exited 0%Z |}, others1)
  | _ => (self1, others1)
  end.

(** ** Dispatcher and main loop *)

(** Lines 523-528: a final newline of the last argument is overwritten. *)
Fixpoint chop_newline (s : string) : string :=
  match s with
  | EmptyString => EmptyString
  | String c EmptyString => if Ascii.eqb c newline then EmptyString else s
  | String c s' => String c (chop_newline s')
  end.

(** [s[0]]: the terminator when [s] is empty. *)
Definition first_char (s : string) : ascii :=
  match s with
  | String c _ => c
  | EmptyString => zero
  end.

Definition process_command (k : kernel) (st : shell_state) (args : arg_array)
  (count : nat) : fork_side :=
  match nth_error args 0 with
  | Some (Some first) =>
      if (Ascii.eqb (first_char first) "#"
          || Ascii.eqb (first_char first) newline)%bool
      then InParent (ShellContinues st [])
      else
        match count with
        | O => InParent ShellUndefined
        | S last =>
            match nth_error args last with
            | Some (Some a) =>
                let args1 := store_arg last (chop_newline a) args in
                match nth_error args1 0 with
                | Some (Some cmd) =>
                    if cmd =? "exit" then InParent ShellCallsExit
                    else if cmd =? "status"
                    then InParent (ShellContinues st (status_command st))
                    else if cmd =? "cd"
                    then match change_directory k args1 count with
                         | Some trace => InParent (ShellContinues st trace)
                         | None => InParent ShellUndefined
                         end
                    else run_fork k st args1 count
                | _ => InParent ShellUndefined
                end
            | _ => InParent ShellUndefined
            end
        end
  | _ => InParent ShellUndefined
  end.

(** One pass of the [while (1)] of [shell_loop] on the line [getline]
    delivered. *)
Definition shell_loop_pass (k : kernel) (st : shell_state) (line : string)
  : fork_side :=
  let (st1, reaped) := check_background_processes st (k_reap k) in
  let prompt := Out ": " in
  match expand_pid (k_bufsize k) (k_getpid k) line with
  | None => InParent ShellUndefined
  | Some fullCommand =>
      let tokens := tokenize fullCommand in
      if (MAX_ARGUMENTS <=? List.length tokens)%nat
      then InParent ShellUndefined             (* overruns [arguments] *)
      else
        match process_command k st1 (args_of_tokens tokens)
                (List.length tokens) with
        | InParent (ShellContinues st2 trace) =>
            InParent (ShellContinues st2 (reaped ++ prompt :: trace)%list)
        | InParent (ShellExits code trace) =>
            InParent (ShellExits code (reaped ++ prompt :: trace)%list)
        | other => other
        end
  end.

(** ** Auxiliary notions for the expander *)

Definition is_dollar (c : ascii) : bool := Ascii.eqb c "$".

(** The text before and the text after the first token of [s]. *)
Fixpoint find_token (s : string) : option (string * string) :=
  match s with
  | EmptyString => None
  | String c s' =>
      match s' with
      | EmptyString => None
      | String c' r =>
          if (is_dollar c && is_dollar c')%bool then Some (EmptyString, r)
          else option_map (fun pr => (String c (fst pr), snd pr)) (find_token s')
      end
  end.

Fixpoint no_dollar (s : string) : bool :=
  match s with
  | EmptyString => true
  | String c s' => (negb (is_dollar c) && no_dollar s')%bool
  end.

Fixpoint count_dollar (s : string) : nat :=
  match s with
  | EmptyString => 0
  | String c s' => (if is_dollar c then 1 else 0) + count_dollar s'
  end.

(** Text that can be put in front of any string without creating or
    hiding a token. *)
Definition token_free_prefix (pre : string) : Prop :=
  forall x, find_token (pre ++ x)
            = option_map (fun pr => (pre ++ fst pr, snd pr)) (find_token x).

(** A line fits the buffer when its terminator does too. *)
Definition fits (s : string) : Prop := String.length s < MAX_COMMAND_LENGTH.

Fixpoint str_repeat (c : ascii) (n : nat) : string :=
  match n with
  | O => EmptyString
  | S n' => String c (str_repeat c n')
  end.

(** ** Scenarios used below *)

(** The state a foreground command that exited with code 0 leaves, the
    shell having one background child outstanding. *)
Definition after_foreground_success : shell_state :=
  {| current_foreground_pid := 500%Z; exit_method := 0%Z; z_mode := 0%Z;
     num_background_process := 1%Z |}.

(** ** Auxiliary notions for the resolver *)

Definition is_operator (a : string) : bool := ((a =? ">") || (a =? "<"))%bool.

(** The indices the first loop of [redirection] records at slot [j]. *)
Definition slots_at (args : arg_array) (j : nat) : list nat :=
  match nth_error args j with
  | Some (Some a) => if is_operator a then [j; j + 1] else []
  | _ => []
  end.

(** The indices it records during [n] passes that start at slot [i]. *)
Definition operator_slots (args : arg_array) (i n : nat) : list nat :=
  flat_map (slots_at args) (seq i n).


(** A kernel as a child sees it ([fork] answered 0) in which every file
    opens and every program is found. *)
Definition child_kernel : kernel :=
  {| k_getpid := 4321%Z;
     k_can_open := fun _ _ => true;
     k_can_exec := fun _ => true;
     k_fds := standard_fds;
     k_garbage := (-5)%Z;
     k_fork := 0%Z;
     k_wait := mkReply 0 0;
     k_reap := mkReply 0 0;
     k_home := Some "/root";
     k_cwd := "/tmp";
     k_chdir := fun _ => true;
     k_bufsize := 120 |}.

(** The same in the parent: [fork] answered pid 700, and the foreground
    [waitpid] reports that this child exited with code 3. *)
Definition parent_kernel : kernel :=
  {| k_getpid := 4321%Z;
     k_can_open := fun _ _ => true;
     k_can_exec := fun _ => true;
     k_fds := standard_fds;
     k_garbage := (-5)%Z;
     k_fork := 700%Z;
     k_wait := mkReply 700 768;
     k_reap := mkReply 0 0;
     k_home := Some "/root";
     k_cwd := "/tmp";
     k_chdir := fun _ => true;
     k_bufsize := 120 |}.

Definition foreground_only_state : shell_state :=
  {| current_foreground_pid := (-5)%Z; exit_method := (-5)%Z; z_mode := 1%Z;
     num_background_process := 0%Z |}.


(** A child in which the stack cell of [input_file] holds 4, the
    descriptor the second [open] of [/dev/null] returns. *)
Definition garbage_kernel : kernel :=
  {| k_getpid := 4321%Z;
     k_can_open := fun _ _ => true;
     k_can_exec := fun _ => true;
     k_fds := standard_fds;
     k_garbage := 4%Z;
     k_fork := 0%Z;
     k_wait := mkReply 0 0;
     k_reap := mkReply 0 0;
     k_home := Some "/root";
     k_cwd := "/tmp";
     k_chdir := fun _ => true;
     k_bufsize := 120 |}.


(** The shell, leader of process group 4321, and two background children
    it forked; nobody has touched the disposition of SIGTERM. *)
Definition shell_process : process :=
  {| p_pid := 4321%Z; p_pgid := 4321%Z; p_action := fun _ => SigDefault;
     p_status := Running |}.

Definition background_children : list process :=
  [{| p_pid := 4400%Z; p_pgid := 4321%Z; p_action := fun _ => SigDefault;
      p_status := Running |};
   {| p_pid := 4401%Z; p_pgid := 4321%Z; p_action := fun _ => SigDefault;
      p_status := Running |}].


(** ** Signal handler *)

Definition set_z_mode (st : shell_state) (v : Z) : shell_state :=
  {| current_foreground_pid := current_foreground_pid st;
     exit_method := exit_method st;
     z_mode := v;
     num_background_process := num_background_process st |}.

Definition entering_banner : string :=
  nl ++ "Entering foreground-only mode (& is now ignored)" ++ nl.

Definition exiting_banner : string := nl ++ "Exiting foreground-only mode" ++ nl.

(** [write(STDOUT_FILENO, literal, n)]: [n] bytes read from the address of
    a string literal, that is its characters, its terminator, and then
    [beyond], whatever the memory after the literal holds. *)
Definition sys_write (literal : string) (n : nat) (beyond : string) : string :=
  str_take n (literal ++ String zero beyond).

(** [catch_SIGTSTP()], lines 77-93. *)
Definition catch_SIGTSTP (beyond : string) (st : shell_state)
  : shell_state * list event :=
  if (z_mode st =? 0)%Z
  then (set_z_mode st 1%Z,
        [Out (sys_write entering_banner 53 beyond); Out ": "])
  else (set_z_mode st 0%Z,
        [Out (sys_write exiting_banner 31 beyond); Out ": "]).

(** ** Auxiliary notions for the tokenizer *)

Definition is_space (c : ascii) : bool := Ascii.eqb c " ".

Fixpoint no_space (s : string) : bool :=
  match s with
  | EmptyString => true
  | String c s' => (negb (is_space c) && no_space s')%bool
  end.

Fixpoint remove_spaces (s : string) : string :=
  match s with
  | EmptyString => EmptyString
  | String c s' =>
      if is_space c then remove_spaces s' else String c (remove_spaces s')
  end.

(** Words written on one line, one space between neighbours. *)
Fixpoint join_words (words : list string) : string :=
  match words with
  | [] => EmptyString
  | w :: words' =>
      match words' with
      | [] => w
      | _ => w ++ " " ++ join_words words'
      end
  end.

(** A word as the tokenizer produces them. *)
Definition is_word (w : string) : Prop := w <> EmptyString /\ no_space w = true.


(** ** Auxiliary notions for the descriptor table *)

(** What descriptor [n] is attached to, [None] when it is closed. *)
Definition slot (fds : fd_table) (n : nat) : option file_desc := nth n fds None.

(** Standard input and standard output are open. *)
Definition std_streams_open (fds : fd_table) : Prop :=
  slot fds 0 <> None /\ slot fds 1 <> None.


(** What one pass of the first loop may have changed. *)
Inductive pass_effect (args : arg_array) (i : nat) (l l' : redir_locals)
  : Prop :=
| pass_output (t : string) :
    nth_error args i = Some (Some ">") ->
    nth_error args (i + 1) = Some (Some t) ->
    (forall m, slot (r_fds l') m
               = if (m =? 1)%nat then Some (Opened t O_WRONLY_CREAT_TRUNC)
                 else slot (r_fds l) m) ->
    (2 <= output_file l')%Z ->
    fd_get (output_file l') (r_fds l') = None ->
    input_file l' = input_file l ->
    pass_effect args i l l'
| pass_input (t : string) :
    nth_error args i = Some (Some "<") ->
    nth_error args (i + 1) = Some (Some t) ->
    (forall m, slot (r_fds l') m
               = if (m =? 0)%nat then Some (Opened t O_RDONLY)
                 else slot (r_fds l) m) ->
    (2 <= input_file l')%Z ->
    fd_get (input_file l') (r_fds l') = None ->
    output_file l' = output_file l ->
    pass_effect args i l l'
| pass_plain :
    nth_error args i <> Some (Some ">") ->
    nth_error args i <> Some (Some "<") ->
    l' = l ->
    pass_effect args i l l'.


(** The flags [redirection] opens the target of an operator with. *)
Definition flags_of_operator (op : string) : open_flags :=
  if op =? ">" then O_WRONLY_CREAT_TRUNC else O_RDONLY.

(** Lines 354-379 of [redirection]: the four conditional [dup2] that
    follow the first loop. *)
Definition redirection_tail (l : redir_locals) (out_null in_null bg : Z)
  : fd_table :=
  let fds3 := if (output_file l =? -5)%Z then r_fds l
              else sys_dup2 (output_file l) 1 (r_fds l) in
  let fds4 := if (input_file l =? -5)%Z then fds3
              else sys_dup2 (input_file l) 0 fds3 in
  let fds5 := if ((output_file l =? -5)%Z && (bg =? 1)%Z)%bool
              then sys_dup2 out_null 1 fds4 else fds4 in
  if ((input_file l =? -5)%Z && (bg =? 1)%Z)%bool
  then sys_dup2 in_null 0 fds5 else fds5.


(** A child for which only [/dev/null] opens and no program is found. *)
Definition missing_file_kernel : kernel :=
  {| k_getpid := 4321%Z;
     k_can_open := fun path _ => path =? "/dev/null";
     k_can_exec := fun _ => false;
     k_fds := standard_fds;
     k_garbage := (-5)%Z;
     k_fork := 0%Z;
     k_wait := mkReply 0 0;
     k_reap := mkReply 0 0;
     k_home := Some "/root";
     k_cwd := "/tmp";
     k_chdir := fun _ => false;
     k_bufsize := 120 |}.


(** The parent of child 700, which died of signal 11 and dumped core:
    the status word carries the core flag, 128, beside the signal. *)
Definition core_dump_kernel : kernel :=
  {| k_getpid := 4321%Z;
     k_can_open := fun _ _ => true;
     k_can_exec := fun _ => true;
     k_fds := standard_fds;
     k_garbage := (-5)%Z;
     k_fork := 700%Z;
     k_wait := mkReply 700 139;
     k_reap := mkReply 0 0;
     k_home := Some "/root";
     k_cwd := "/tmp";
     k_chdir := fun _ => true;
     k_bufsize := 120 |}.

(** A shell that cannot fork. *)
Definition no_fork_kernel : kernel :=
  {| k_getpid := 4321%Z;
     k_can_open := fun _ _ => true;
     k_can_exec := fun _ => true;
     k_fds := standard_fds;
     k_garbage := (-5)%Z;
     k_fork := (-1)%Z;
     k_wait := mkReply 0 0;
     k_reap := mkReply 0 0;
     k_home := Some "/root";
     k_cwd := "/tmp";
     k_chdir := fun _ => true;
     k_bufsize := 120 |}.

(* ================================================================== *)
(** * Part II: properties                                              *)
(* ================================================================== *)

(** ** The status word *)

Lemma WTERMSIG_range (status : Z) : (0 <= WTERMSIG status < 128)%Z.
Proof.
  unfold WTERMSIG.
  change 127%Z with (Z.ones 7).
  rewrite Z.land_ones by lia.
  change (2 ^ 7)%Z with 128%Z.
  apply Z.mod_pos_bound; lia.
Qed.

Lemma status_line_exited (status : Z) :
  WTERMSIG status = 0%Z ->
  status_line status = "exit value " ++ dec (WEXITSTATUS status) ++ nl.
Proof.
  intros H. unfold status_line, WIFEXITED. rewrite H. reflexivity.
Qed.

Lemma status_line_signaled (status : Z) :
  WTERMSIG status <> 0%Z ->
  status_line status = "terminated by signal " ++ dec (WTERMSIG status) ++ nl.
Proof.
  intros H. unfold status_line, WIFEXITED.
  destruct (Z.eqb_spec (WTERMSIG status) 0); [contradiction | reflexivity].
Qed.

(** The initial value of [exit_method] decodes as a death by signal. *)
Lemma initial_exit_method_decodes :
  WIFEXITED (exit_method initial_state) = false /\
  WTERMSIG (exit_method initial_state) = 123%Z.
Proof. split; reflexivity. Qed.

(** C1.  Before any foreground command has completed the word [status]
    decodes is the initialiser -5 of [exit_method]; its low seven bits are
    123, so the built-in prints [terminated by signal 123] and not
    [exit value 0], whatever the kernel answers during that pass. *)
Theorem status_first_command (k : kernel) :
  shell_loop_pass k initial_state ("status" ++ nl)
  = InParent (ShellContinues initial_state
                [Out ": "; Out ("terminated by signal 123" ++ nl)])
  /\ status_command initial_state <> [Out ("exit value 0" ++ nl)].
Proof.
  split.
  - reflexivity.
  - discriminate.
Qed.

(** ** The reaper *)

Lemma reaper_idle (st : shell_state) (reply : wait_reply) :
  (num_background_process st <= 0)%Z ->
  check_background_processes st reply = (st, []).
Proof.
  intros H. unfold check_background_processes.
  destruct (Z.ltb_spec 0 (num_background_process st)); [lia | reflexivity].
Qed.

Lemma reaper_collects (st : shell_state) (reply : wait_reply) :
  (0 < num_background_process st)%Z ->
  (0 < w_ret reply)%Z ->
  check_background_processes st reply
  = (set_exit_method st (w_status reply),
     [WaitFor (-1)%Z WNOHANG;
      Out ("background pid " ++ dec (w_ret reply) ++ " is done: ");
      Out (status_line (w_status reply))]).
Proof.
  intros Hn Hr. unfold check_background_processes, waitpid_store.
  destruct (Z.ltb_spec 0 (num_background_process st)); [| lia].
  destruct (Z.ltb_spec 0 (w_ret reply)); [| lia].
  reflexivity.
Qed.

(** C2.  The reaper hands [&exit_method] to [waitpid], the very variable
    [status] decodes: after a foreground command that exited with 0, the
    reaping of background child 600 that exited with 1 (status word 256)
    makes [status] print [exit value 1]. *)
Theorem reaper_overwrites_foreground_status :
  status_command after_foreground_success = [Out ("exit value 0" ++ nl)] /\
  let st' := fst (check_background_processes after_foreground_success
                    (mkReply 600 256)) in
  exit_method st' = 256%Z /\
  status_command st' = [Out ("exit value 1" ++ nl)].
Proof. repeat split. Qed.

(** C3.  When the reaper finds a completed child it prints the pid and the
    decoded status word of that child, but the counter of background
    children is the same after the call: no decrement is performed. *)
Theorem reaper_reports_and_keeps_count (st : shell_state) (reply : wait_reply) :
  (0 < num_background_process st)%Z ->
  (0 < w_ret reply)%Z ->
  let (st', trace) := check_background_processes st reply in
  trace = [WaitFor (-1)%Z WNOHANG;
           Out ("background pid " ++ dec (w_ret reply) ++ " is done: ");
           Out (if WIFEXITED (w_status reply)
                then "exit value " ++ dec (WEXITSTATUS (w_status reply)) ++ nl
                else "terminated by signal "
                     ++ dec (WTERMSIG (w_status reply)) ++ nl)]
  /\ num_background_process st' = num_background_process st
  /\ num_background_process st' <> (num_background_process st - 1)%Z.
Proof.
  intros Hn Hr. rewrite reaper_collects by assumption.
  cbn [num_background_process set_exit_method]. repeat split. lia.
Qed.

Lemma reaper_reports_and_keeps_count_witness :
  let (st', trace) :=
    check_background_processes after_foreground_success (mkReply 600 15) in
  trace = [WaitFor (-1)%Z WNOHANG;
           Out "background pid 600 is done: ";
           Out ("terminated by signal 15" ++ nl)]
  /\ num_background_process st' = 1%Z
  /\ num_background_process st' <> 0%Z.
Proof.
  apply (reaper_reports_and_keeps_count after_foreground_success
           (mkReply 600 15)); reflexivity.
Defined.

(** ** Strings *)

Lemma str_app_assoc (a b c : string) : (a ++ b) ++ c = a ++ (b ++ c).
Proof. induction a as [| x a IH]; simpl; [reflexivity | now rewrite IH]. Qed.

Lemma str_app_nil_r (a : string) : a ++ "" = a.
Proof. induction a as [| x a IH]; simpl; [reflexivity | now rewrite IH]. Qed.

Lemma str_app_length (a b : string) :
  String.length (a ++ b) = String.length a + String.length b.
Proof. induction a as [| x a IH]; simpl; [reflexivity | now rewrite IH]. Qed.

Lemma str_take_all (n : nat) (s : string) :
  String.length s <= n -> str_take n s = s.
Proof.
  revert n; induction s as [| c s IH]; intros [| n] H; simpl in *;
    try reflexivity; try lia.
  rewrite IH by lia. reflexivity.
Qed.

Lemma str_take_app (a b : string) : str_take (String.length a) (a ++ b) = a.
Proof. induction a as [| x a IH]; simpl; [now destruct b | now rewrite IH]. Qed.

Lemma str_drop_app (a b : string) : str_drop (String.length a) (a ++ b) = b.
Proof. induction a as [| x a IH]; simpl; [now destruct b | exact IH]. Qed.

Lemma str_take_length (n : nat) (s : string) :
  String.length (str_take n s) <= n.
Proof.
  revert n; induction s as [| c s IH]; intros [| n]; simpl; try lia.
  specialize (IH n). lia.
Qed.

(** Induction that peels two characters at a time, as the scan does. *)
Lemma string_pair_ind (P : string -> Prop) :
  P "" ->
  (forall c, P (String c "")) ->
  (forall c c' r, P r -> P (String c' r) -> P (String c (String c' r))) ->
  forall s, P s.
Proof.
  intros H0 H1 H2 s.
  assert (H : P s /\ forall c, P (String c s)).
  { induction s as [| c' r [IHr IHc]]; split; auto. }
  apply H.
Qed.
(** ** The expander *)

Lemma prefix_cons (a b : ascii) (s1 s2 : string) :
  prefix (String a s1) (String b s2)
  = if ascii_dec a b then prefix s1 s2 else false.
Proof. reflexivity. Qed.

Lemma prefix_nil (s : string) : prefix "" s = true.
Proof. destruct s; reflexivity. Qed.

Lemma is_dollar_dec (c : ascii) :
  is_dollar c = if ascii_dec "$" c then true else false.
Proof.
  unfold is_dollar. destruct (ascii_dec "$" c) as [<- | H].
  - reflexivity.
  - apply Ascii.eqb_neq. congruence.
Qed.

Lemma prefix_token (s : string) :
  prefix "$$" s
  = match s with
    | String c (String c' _) => (is_dollar c && is_dollar c')%bool
    | _ => false
    end.
Proof.
  destruct s as [| c [| c' r]].
  - reflexivity.
  - rewrite prefix_cons. destruct (ascii_dec "$" c); reflexivity.
  - rewrite !prefix_cons, prefix_nil, !is_dollar_dec.
    destruct (ascii_dec "$" c), (ascii_dec "$" c'); reflexivity.
Qed.

Lemma find_token_cons2 (c c' : ascii) (r : string) :
  find_token (String c (String c' r))
  = if (is_dollar c && is_dollar c')%bool then Some ("", r)
    else option_map (fun pr => (String c (fst pr), snd pr))
           (find_token (String c' r)).
Proof. reflexivity. Qed.

Lemma strstr_cons (c : ascii) (s : string) :
  strstr (String c s) "$$"
  = if prefix "$$" (String c s) then Some 0 else option_map S (strstr s "$$").
Proof. reflexivity. Qed.

(** [strstr] finds the token where [find_token] cuts the line. *)
Lemma strstr_find_token (s : string) :
  strstr s "$$" = option_map (fun pr => String.length (fst pr)) (find_token s).
Proof.
  induction s as [| c s IH].
  - reflexivity.
  - rewrite strstr_cons, prefix_token. destruct s as [| c' r].
    + reflexivity.
    + rewrite find_token_cons2, IH.
      destruct (is_dollar c && is_dollar c')%bool; [reflexivity |].
      destruct (find_token (String c' r)) as [[p q] |]; reflexivity.
Qed.

Lemma find_token_split (s p r : string) :
  find_token s = Some (p, r) -> s = p ++ "$$" ++ r.
Proof.
  revert p r; induction s as [| c s IH]; intros p r H.
  - discriminate.
  - destruct s as [| c' q]; [discriminate |].
    rewrite find_token_cons2 in H.
    destruct (is_dollar c) eqn:Ec, (is_dollar c') eqn:Ec'; cbn [andb] in H.
    1: { injection H as <- <-.
         apply Ascii.eqb_eq in Ec, Ec'. subst. reflexivity. }
    all: destruct (find_token (String c' q)) as [[p' r'] |];
      [| discriminate]; cbn [option_map fst snd] in H;
      injection H as <- <-; cbn [append]; f_equal;
      apply (IH p' r'); reflexivity.
Qed.

Lemma find_token_none_strstr (s : string) :
  strstr s "$$" = None <-> find_token s = None.
Proof.
  rewrite strstr_find_token.
  destruct (find_token s) as [[p r] |]; simpl; split; congruence.
Qed.

(** One pass of the loop on a line whose first token is known. *)
Lemma expand_step_at_token (capacity : nat) (pid : Z) (s p r : string) :
  MAX_COMMAND_LENGTH <= capacity ->
  find_token s = Some (p, r) ->
  expand_step capacity pid s (String.length p)
  = Some (str_take (MAX_COMMAND_LENGTH - 1) (p ++ dec pid ++ r)).
Proof.
  intros Hcap H. apply find_token_split in H. subst s.
  unfold expand_step, snprintf, strncpy.
  destruct (Nat.leb_spec MAX_COMMAND_LENGTH capacity); [| lia]. f_equal.
  rewrite str_take_app.
  replace (String.length p + 2) with (String.length (p ++ "$$"))
    by (rewrite str_app_length; reflexivity).
  rewrite <- (str_app_assoc p "$$" r), str_drop_app.
  apply str_take_all.
  etransitivity; [apply str_take_length |]. unfold MAX_COMMAND_LENGTH. lia.
Qed.

(** *** Prefixes that neither create nor hide a token *)

Lemma token_free_nil : token_free_prefix "".
Proof.
  intros x. simpl. destruct (find_token x) as [[p r] |]; reflexivity.
Qed.

Lemma token_free_app (a b : string) :
  token_free_prefix a -> token_free_prefix b -> token_free_prefix (a ++ b).
Proof.
  intros Ha Hb x. rewrite str_app_assoc, Ha, Hb.
  destruct (find_token x) as [[p r] |]; simpl; [| reflexivity].
  now rewrite str_app_assoc.
Qed.

Lemma find_token_skip (c : ascii) (s : string) :
  is_dollar c = false ->
  find_token (String c s)
  = option_map (fun pr => (String c (fst pr), snd pr)) (find_token s).
Proof.
  intros Hc. destruct s as [| c' r].
  - reflexivity.
  - cbn [find_token]. rewrite Hc. reflexivity.
Qed.

Lemma token_free_no_dollar (s : string) :
  no_dollar s = true -> token_free_prefix s.
Proof.
  induction s as [| c s IH]; intros H.
  - apply token_free_nil.
  - simpl in H. apply andb_prop in H as [Hc Hs].
    apply negb_true_iff in Hc.
    intros x. change (String c s ++ x) with (String c (s ++ x)).
    rewrite find_token_skip by assumption.
    rewrite (IH Hs x).
    destruct (find_token x) as [[p r] |]; reflexivity.
Qed.

Lemma no_dollar_uint (d : Decimal.uint) :
  no_dollar (NilEmpty.string_of_uint d) = true.
Proof. induction d; simpl; auto. Qed.

Lemma no_dollar_dec (z : Z) : no_dollar (dec z) = true.
Proof.
  unfold dec.
  destruct (Z.to_int z) as [d | d]; simpl;
    destruct d; simpl; auto using no_dollar_uint.
Qed.

Lemma dec_nonempty (z : Z) : 1 <= String.length (dec z).
Proof.
  unfold dec.
  destruct (Z.to_int z) as [d | d]; simpl; [| lia].
  destruct d; simpl; lia.
Qed.

(** The text before the first token can be put in front of anything. *)
Lemma token_free_before_token (s p r : string) :
  find_token s = Some (p, r) -> token_free_prefix p.
Proof.
  revert p r; induction s as [| c s IH]; intros p r H.
  - discriminate.
  - destruct s as [| c' q]; [discriminate |].
    rewrite find_token_cons2 in H.
    destruct (is_dollar c && is_dollar c')%bool eqn:E.
    + injection H as <- <-. apply token_free_nil.
    + destruct (find_token (String c' q)) as [[p' r'] |] eqn:F;
        [| discriminate].
      cbn [option_map fst snd] in H. injection H as <- <-.
      specialize (IH p' r' eq_refl).
      intros x. change (String c p' ++ x) with (String c (p' ++ x)).
      apply find_token_split in F.
      destruct p' as [| d p''].
      * (* the token follows [c] at once, so [c] is not a dollar *)
        simpl in F. injection F as -> _.
        change (is_dollar "$") with true in E. rewrite andb_true_r in E.
        cbn [append]. rewrite find_token_skip by assumption.
        destruct (find_token x) as [[a b] |]; reflexivity.
      * simpl in F. injection F as -> _.
        change (String d p'' ++ x) with (String d (p'' ++ x)).
        rewrite find_token_cons2, E.
        change (String d (p'' ++ x)) with (String d p'' ++ x).
        rewrite IH. destruct (find_token x) as [[a b] |]; reflexivity.
Qed.

(** *** The scan of the specification, cut at the first token *)

Lemma replace_no_token (pid : Z) (s : string) :
  find_token s = None -> replace_pid_tokens pid s = s.
Proof.
  induction s as [| c s IH]; intros H.
  - reflexivity.
  - destruct s as [| c' r]; [reflexivity |].
    rewrite find_token_cons2 in H.
    change (replace_pid_tokens pid (String c (String c' r)))
      with (if (Ascii.eqb c "$" && Ascii.eqb c' "$")%bool
            then dec pid ++ replace_pid_tokens pid r
            else String c (replace_pid_tokens pid (String c' r))).
    fold (is_dollar c) (is_dollar c').
    destruct (is_dollar c && is_dollar c')%bool; [discriminate |].
    rewrite IH; [reflexivity |].
    destruct (find_token (String c' r)); [discriminate | reflexivity].
Qed.

Lemma replace_at_token (pid : Z) (s p r : string) :
  find_token s = Some (p, r) ->
  replace_pid_tokens pid s = p ++ dec pid ++ replace_pid_tokens pid r.
Proof.
  revert p r; induction s as [| c s IH]; intros p r H.
  - discriminate.
  - destruct s as [| c' q]; [discriminate |].
    rewrite find_token_cons2 in H.
    change (replace_pid_tokens pid (String c (String c' q)))
      with (if (Ascii.eqb c "$" && Ascii.eqb c' "$")%bool
            then dec pid ++ replace_pid_tokens pid q
            else String c (replace_pid_tokens pid (String c' q))).
    fold (is_dollar c) (is_dollar c').
    destruct (is_dollar c && is_dollar c')%bool.
    + injection H as <- <-. reflexivity.
    + destruct (find_token (String c' q)) as [[p' r'] |]; [| discriminate].
      cbn [option_map fst snd] in H. injection H as <- <-.
      rewrite (IH p' r' eq_refl). reflexivity.
Qed.

(** With a pid of two digits or more the scan never shortens a line; with
    a one-digit pid it never lengthens one. *)
Lemma replace_length_grows (pid : Z) (s : string) :
  2 <= String.length (dec pid) ->
  String.length s <= String.length (replace_pid_tokens pid s).
Proof.
  intros Hd. induction s as [| c | c c' r IHr IHc] using string_pair_ind.
  - simpl. lia.
  - simpl. lia.
  - change (replace_pid_tokens pid (String c (String c' r)))
      with (if (Ascii.eqb c "$" && Ascii.eqb c' "$")%bool
            then dec pid ++ replace_pid_tokens pid r
            else String c (replace_pid_tokens pid (String c' r))).
    destruct (Ascii.eqb c "$" && Ascii.eqb c' "$")%bool.
    + rewrite str_app_length. simpl. lia.
    + simpl String.length in *. lia.
Qed.

Lemma replace_length_shrinks (pid : Z) (s : string) :
  String.length (dec pid) <= 2 ->
  String.length (replace_pid_tokens pid s) <= String.length s.
Proof.
  intros Hd. induction s as [| c | c c' r IHr IHc] using string_pair_ind.
  - simpl. lia.
  - simpl. lia.
  - change (replace_pid_tokens pid (String c (String c' r)))
      with (if (Ascii.eqb c "$" && Ascii.eqb c' "$")%bool
            then dec pid ++ replace_pid_tokens pid r
            else String c (replace_pid_tokens pid (String c' r))).
    destruct (Ascii.eqb c "$" && Ascii.eqb c' "$")%bool.
    + rewrite str_app_length. simpl. lia.
    + simpl String.length in *. lia.
Qed.

(** *** The loop computes the scan *)

Lemma expand_pid_loop_scan (capacity : nat) (pid : Z) (fuel : nat) :
  MAX_COMMAND_LENGTH <= capacity ->
  forall pre s,
    token_free_prefix pre ->
    String.length s <= fuel ->
    fits (pre ++ s) ->
    fits (pre ++ replace_pid_tokens pid s) ->
    expand_pid_loop fuel capacity pid (pre ++ s)
    = Some (pre ++ replace_pid_tokens pid s).
Proof.
  intros Hcap.
  induction fuel as [| fuel IH]; intros pre s Hpre Hfuel Hin Hout.
  - destruct s; [| simpl in Hfuel; lia].
    simpl. rewrite str_app_nil_r.
    assert (F : find_token pre = None).
    { specialize (Hpre ""). rewrite str_app_nil_r in Hpre. exact Hpre. }
    apply find_token_none_strstr in F. rewrite F. reflexivity.
  - destruct (find_token s) as [[p r] |] eqn:F.
    + assert (Fpre : find_token (pre ++ s) = Some (pre ++ p, r)).
      { rewrite Hpre, F. reflexivity. }
      cbn [expand_pid_loop]. rewrite strstr_find_token, Fpre.
      cbn [option_map fst].
      rewrite (expand_step_at_token capacity pid _ _ _ Hcap Fpre).
      rewrite (replace_at_token pid _ _ _ F) in Hout |- *.
      pose proof (find_token_split _ _ _ F) as ->.
      unfold fits in Hin, Hout.
      rewrite !str_app_length in Hin, Hout. simpl String.length in Hin.
      rewrite !str_app_length in Hfuel. simpl String.length in Hfuel.
      assert (Hmid : String.length (pre ++ p ++ dec pid ++ r)
                     < MAX_COMMAND_LENGTH).
      { rewrite !str_app_length.
        destruct (Nat.le_gt_cases 2 (String.length (dec pid))) as [Hd | Hd].
        - pose proof (replace_length_grows pid r Hd). lia.
        - lia. }
      rewrite str_app_assoc, str_take_all by lia.
      replace (pre ++ p ++ dec pid ++ r) with ((pre ++ p ++ dec pid) ++ r)
        by (rewrite !str_app_assoc; reflexivity).
      replace (pre ++ p ++ dec pid ++ replace_pid_tokens pid r)
        with ((pre ++ p ++ dec pid) ++ replace_pid_tokens pid r)
        by (rewrite !str_app_assoc; reflexivity).
      apply IH.
      * apply token_free_app; [assumption |].
        apply token_free_app; [eapply token_free_before_token; eassumption |].
        apply token_free_no_dollar, no_dollar_dec.
      * lia.
      * unfold fits. rewrite !str_app_assoc. exact Hmid.
      * unfold fits. rewrite !str_app_length. lia.
    + assert (Fpre : find_token (pre ++ s) = None).
      { rewrite Hpre, F. reflexivity. }
      apply find_token_none_strstr in Fpre.
      cbn [expand_pid_loop]. rewrite Fpre.
      rewrite (replace_no_token pid s F). reflexivity.
Qed.

(** The loop returns the scan of the specification whenever the line read
    and the line expanded both fit the buffer. *)
Lemma expand_pid_scan (capacity : nat) (pid : Z) (line : string) :
  MAX_COMMAND_LENGTH <= capacity ->
  fits line ->
  fits (replace_pid_tokens pid line) ->
  expand_pid capacity pid line = Some (replace_pid_tokens pid line).
Proof.
  intros Hcap Hin Hout. unfold expand_pid.
  apply (expand_pid_loop_scan capacity pid (String.length line) Hcap "" line);
    auto using token_free_nil.
Qed.

(** *** Lines cut into segments *)

Lemma str_app_cons (c : ascii) (a b : string) :
  String c a ++ b = String c (a ++ b).
Proof. reflexivity. Qed.



(** Every line is cut that way, so the theorem below covers all lines. *)
Lemma line_has_segments (line : string) :
  exists segments tail,
    line = join_segments "$$" segments tail /\
    Forall (fun p => strstr (p ++ "$") "$$" = None) segments /\
    strstr tail "$$" = None.
Proof.
  remember (String.length line) as n eqn:Hn.
  assert (Hle : String.length line <= n) by lia. clear Hn.
  revert line Hle. induction n as [| n IH]; intros line Hle.
  - destruct line; [| simpl in Hle; lia].
    exists [], "". repeat split; constructor.
  - destruct (find_token line) as [[p r] |] eqn:F.
    + pose proof (find_token_split _ _ _ F) as E.
      assert (Hr : String.length r <= n).
      { rewrite E, !str_app_length in Hle. simpl in Hle. lia. }
      destruct (IH r Hr) as (segments & tail & Er & Hs & Ht).
      exists (p :: segments), tail. repeat split.
      * simpl. now rewrite <- Er.
      * constructor; [| assumption].
        apply find_token_none_strstr.
        now rewrite (token_free_before_token _ _ _ F "$").
      * assumption.
    + exists [], line. repeat split.
      * constructor.
      * now apply find_token_none_strstr.
Qed.

(** *** The loop always ends within its fuel *)

Lemma count_dollar_app (a b : string) :
  count_dollar (a ++ b) = count_dollar a + count_dollar b.
Proof. induction a as [| c a IH]; simpl; [reflexivity | rewrite IH; lia]. Qed.

Lemma count_dollar_take (n : nat) (s : string) :
  count_dollar (str_take n s) <= count_dollar s.
Proof.
  revert n; induction s as [| c s IH]; intros [| n]; simpl; try lia.
  specialize (IH n). lia.
Qed.

Lemma count_dollar_none (s : string) :
  no_dollar s = true -> count_dollar s = 0.
Proof.
  induction s as [| c s IH]; simpl; [reflexivity |].
  intros H. apply andb_prop in H as [Hc Hs].
  apply negb_true_iff in Hc. rewrite Hc, IH by assumption. reflexivity.
Qed.

Lemma count_dollar_length (s : string) : count_dollar s <= String.length s.
Proof.
  induction s as [| c s IH]; simpl; [lia |]. destruct (is_dollar c); lia.
Qed.

Lemma expand_pid_loop_total (capacity : nat) (pid : Z) (fuel : nat) :
  MAX_COMMAND_LENGTH <= capacity ->
  forall s, count_dollar s <= fuel ->
            exists r, expand_pid_loop fuel capacity pid s = Some r.
Proof.
  intros Hcap.
  induction fuel as [| fuel IH]; intros s Hs;
    cbn [expand_pid_loop]; rewrite strstr_find_token;
    destruct (find_token s) as [[p r] |] eqn:F; cbn [option_map fst];
    try (eexists; reflexivity).
  - apply find_token_split in F. subst s.
    rewrite !count_dollar_app in Hs. simpl in Hs. lia.
  - rewrite (expand_step_at_token capacity pid _ _ _ Hcap F). apply IH.
    etransitivity; [apply count_dollar_take |].
    apply find_token_split in F. subst s.
    rewrite !count_dollar_app in *.
    rewrite (count_dollar_none _ (no_dollar_dec pid)).
    simpl in Hs. lia.
Qed.

(** In a block that holds what [strncpy] writes, [expand_pid] returns on
    every line, truncated or not. *)
Lemma expand_pid_total (capacity : nat) (pid : Z) (line : string) :
  MAX_COMMAND_LENGTH <= capacity ->
  exists r, expand_pid capacity pid line = Some r.
Proof.
  intros Hcap. apply expand_pid_loop_total; [exact Hcap |].
  apply count_dollar_length.
Qed.





(** ** The argument array *)

Lemma store_null_length (idx : nat) (args : arg_array) :
  List.length (store_null idx args) = List.length args.
Proof.
  revert idx; induction args as [| a args IH]; intros [| idx]; simpl; auto.
Qed.

Lemma store_null_same (idx : nat) (args : arg_array) :
  idx < List.length args -> nth_error (store_null idx args) idx = Some None.
Proof.
  revert idx; induction args as [| a args IH]; intros [| idx] H; simpl in *;
    try lia; [reflexivity | apply IH; lia].
Qed.

Lemma store_null_other (idx j : nat) (args : arg_array) :
  idx <> j -> nth_error (store_null idx args) j = nth_error args j.
Proof.
  revert idx j; induction args as [| a args IH]; intros [| idx] [| j] H;
    simpl; try reflexivity; try congruence.
  apply IH. congruence.
Qed.

Lemma store_null_app (idx : nat) (args extra : arg_array) :
  idx < List.length args ->
  store_null idx (args ++ extra)%list = (store_null idx args ++ extra)%list.
Proof.
  revert idx; induction args as [| a args IH]; intros [| idx] H; simpl in *;
    try lia; [reflexivity | rewrite IH by lia; reflexivity].
Qed.

Lemma remove_args_length (pending : list nat) (args : arg_array) :
  List.length (remove_args pending args) = List.length args.
Proof.
  unfold remove_args. revert args.
  induction pending as [| idx pending IH]; intros args; simpl;
    [reflexivity | rewrite IH; apply store_null_length].
Qed.

Lemma remove_args_kept (pending : list nat) (args : arg_array) (j : nat) :
  ~ In j pending -> nth_error (remove_args pending args) j = nth_error args j.
Proof.
  unfold remove_args. revert args.
  induction pending as [| idx pending IH]; intros args H; simpl.
  - reflexivity.
  - rewrite IH by (intros F; apply H; right; exact F).
    apply store_null_other. intros ->. apply H. left. reflexivity.
Qed.

Lemma remove_args_nulled (pending : list nat) (args : arg_array) (j : nat) :
  In j pending -> j < List.length args ->
  nth_error (remove_args pending args) j = Some None.
Proof.
  unfold remove_args. revert args.
  induction pending as [| idx pending IH]; intros args H Hj; simpl.
  - destruct H.
  - destruct (in_dec Nat.eq_dec j pending) as [Hin | Hout].
    + apply IH; [assumption | now rewrite store_null_length].
    + fold (remove_args pending (store_null idx args)).
      rewrite remove_args_kept by assumption.
      destruct H as [-> | H]; [| contradiction].
      now apply store_null_same.
Qed.

Lemma remove_args_app (pending : list nat) (args extra : arg_array) :
  Forall (fun idx => idx < List.length args) pending ->
  remove_args pending (args ++ extra)%list
  = (remove_args pending args ++ extra)%list.
Proof.
  unfold remove_args. revert args.
  induction pending as [| idx pending IH]; intros args H; simpl.
  - reflexivity.
  - inversion H as [| ? ? Hidx Hrest]; subst.
    rewrite store_null_app by assumption.
    apply IH. now rewrite store_null_length.
Qed.

(** A slot is either nulled or left as it was. *)
Lemma remove_args_slot (pending : list nat) (args : arg_array) (j : nat)
  (s : string) :
  nth_error (remove_args pending args) j = Some (Some s) ->
  nth_error args j = Some (Some s) /\ ~ In j pending.
Proof.
  intros H. destruct (in_dec Nat.eq_dec j pending) as [Hin | Hout].
  - assert (Hj : j < List.length args).
    { rewrite <- (remove_args_length pending).
      apply nth_error_Some. congruence. }
    rewrite (remove_args_nulled _ _ _ Hin Hj) in H. discriminate.
  - rewrite remove_args_kept in H by assumption. auto.
Qed.

(** [execvp] stops reading at the first null slot. *)
Lemma argv_stops_at_null (args : arg_array) (j : nat) :
  nth_error args j = Some None -> List.length (argv_of args) <= j.
Proof.
  revert j; induction args as [| a args IH]; intros [| j] H; simpl in *;
    try discriminate.
  - injection H as ->. simpl. lia.
  - destruct a; simpl; [| lia]. specialize (IH j H). lia.
Qed.

Lemma argv_slot (args : arg_array) (p : nat) (s : string) :
  nth_error (argv_of args) p = Some s -> nth_error args p = Some (Some s).
Proof.
  revert p; induction args as [| a args IH]; intros p H.
  - destruct p; discriminate.
  - destruct a as [a |]; [| destruct p; discriminate].
    destruct p as [| p]; simpl in *; [congruence | auto].
Qed.

Lemma argv_of_tokens (tokens : list string) (extra : arg_array) :
  argv_of (map Some tokens ++ None :: extra)%list = tokens.
Proof.
  induction tokens as [| t tokens IH]; simpl; [reflexivity | now rewrite IH].
Qed.

Lemma args_of_tokens_slot (tokens : list string) (j : nat) (s : string) :
  nth_error tokens j = Some s ->
  nth_error (args_of_tokens tokens) j = Some (Some s).
Proof.
  intros H. unfold args_of_tokens.
  rewrite nth_error_app1 by (rewrite length_map; apply nth_error_Some; congruence).
  rewrite nth_error_map, H. reflexivity.
Qed.

(** ** The first loop of the resolver *)

Lemma operator_slots_step (args : arg_array) (i n : nat) :
  operator_slots args i (S n)
  = (slots_at args i ++ operator_slots args (S i) n)%list.
Proof. reflexivity. Qed.

Lemma record_pair_inv (i : nat) (pending pending' : list nat) :
  record_pair i pending = Some pending' ->
  pending' = (pending ++ [i; i + 1])%list.
Proof.
  unfold record_pair.
  destruct (List.length pending + 2 <=? MAX_ARGUMENTS)%nat; congruence.
Qed.

Lemma output_branch_next (can_open : string -> open_flags -> bool)
  (args : arg_array) (i : nat) (l l' : redir_locals) :
  output_branch can_open args i l = Next l' ->
  args_to_remove l' = (args_to_remove l ++ [i; i + 1])%list /\
  i + 1 < List.length args.
Proof.
  unfold output_branch.
  destruct (nth_error args (i + 1)) as [target |] eqn:T; [| discriminate].
  destruct (sys_open can_open target O_WRONLY_CREAT_TRUNC (r_fds l))
    as [fds1 fd].
  destruct (fd =? -1)%Z; [discriminate |].
  destruct (record_pair i (args_to_remove l)) as [pending |] eqn:R;
    [| discriminate].
  intros H. injection H as <-. simpl. split.
  - now apply record_pair_inv.
  - apply nth_error_Some. congruence.
Qed.

Lemma input_branch_next (can_open : string -> open_flags -> bool)
  (args : arg_array) (i : nat) (l l' : redir_locals) :
  input_branch can_open args i l = Next l' ->
  args_to_remove l' = (args_to_remove l ++ [i; i + 1])%list /\
  i + 1 < List.length args.
Proof.
  unfold input_branch.
  destruct (nth_error args (i + 1)) as [target |] eqn:T; [| discriminate].
  destruct (sys_open can_open target O_RDONLY (r_fds l)) as [fds1 fd].
  destruct (fd =? -1)%Z; [discriminate |].
  destruct (record_pair i (args_to_remove l)) as [pending |] eqn:R;
    [| discriminate].
  intros H. injection H as <-. simpl. split.
  - now apply record_pair_inv.
  - apply nth_error_Some. congruence.
Qed.

(** A pass that goes on has recorded the slots of its operator, if any,
    and these lie inside the array. *)
Lemma redirection_body_next (can_open : string -> open_flags -> bool)
  (args : arg_array) (i : nat) (l l' : redir_locals) :
  redirection_body can_open args i l = Next l' ->
  args_to_remove l' = (args_to_remove l ++ slots_at args i)%list /\
  Forall (fun idx => idx < List.length args) (slots_at args i).
Proof.
  unfold redirection_body, slots_at, is_operator.
  destruct (nth_error args i) as [[a |] |] eqn:A; try discriminate.
  destruct (a =? ">") eqn:Eo, (a =? "<") eqn:Ei; cbn [orb].
  - apply String.eqb_eq in Eo, Ei. congruence.
  - destruct (output_branch can_open args i l) as [l1 | r] eqn:B;
      [| discriminate].
    intros H. injection H as <-.
    apply output_branch_next in B as [B1 B2]. split; [assumption |].
    repeat constructor; lia.
  - intros B. apply input_branch_next in B as [B1 B2]. split; [assumption |].
    repeat constructor; lia.
  - intros H. injection H as <-. split; [| constructor].
    now rewrite app_nil_r.
Qed.

Lemma redirection_loop_next (can_open : string -> open_flags -> bool)
  (args : arg_array) (n : nat) :
  forall i l l',
    redirection_loop can_open args n i l = Next l' ->
    args_to_remove l' = (args_to_remove l ++ operator_slots args i n)%list /\
    Forall (fun idx => idx < List.length args) (operator_slots args i n).
Proof.
  induction n as [| n IH]; intros i l l' H.
  - injection H as <-. split; [now rewrite app_nil_r | constructor].
  - cbn [redirection_loop] in H.
    destruct (redirection_body can_open args i l) as [l1 | r] eqn:B;
      [| discriminate].
    apply redirection_body_next in B as [B1 B2].
    apply IH in H as [H1 H2].
    rewrite operator_slots_step. split.
    + rewrite H1, B1, app_assoc. reflexivity.
    + apply Forall_app. split; assumption.
Qed.

(** The loop reads no slot beyond the one after its last index. *)
Lemma redirection_loop_ext (can_open : string -> open_flags -> bool)
  (a1 a2 : arg_array) (n : nat) :
  forall i l,
    (forall j, j <= i + n -> nth_error a1 j = nth_error a2 j) ->
    redirection_loop can_open a1 n i l = redirection_loop can_open a2 n i l.
Proof.
  induction n as [| n IH]; intros i l H.
  - reflexivity.
  - cbn [redirection_loop].
    assert (B : redirection_body can_open a1 i l
                = redirection_body can_open a2 i l).
    { unfold redirection_body, output_branch, input_branch.
      rewrite (H i), (H (i + 1)) by lia. reflexivity. }
    rewrite B. destruct (redirection_body can_open a2 i l); [| reflexivity].
    apply IH. intros j Hj. apply H. lia.
Qed.

Lemma operator_slots_ext (a1 a2 : arg_array) (n : nat) :
  forall i,
    (forall j, j < i + n -> nth_error a1 j = nth_error a2 j) ->
    operator_slots a1 i n = operator_slots a2 i n.
Proof.
  induction n as [| n IH]; intros i H; [reflexivity |].
  rewrite !operator_slots_step. f_equal.
  - unfold slots_at. rewrite H by lia. reflexivity.
  - apply IH. intros j Hj. apply H. lia.
Qed.

Lemma operator_slots_in (args : arg_array) (i n j : nat) (a : string) :
  i <= j < i + n ->
  nth_error args j = Some (Some a) ->
  is_operator a = true ->
  In j (operator_slots args i n) /\ In (j + 1) (operator_slots args i n).
Proof.
  intros Hj A O. unfold operator_slots.
  split; apply in_flat_map; exists j; (split; [apply in_seq; lia |]);
    unfold slots_at; rewrite A, O; simpl; auto.
Qed.

Lemma operator_slots_none (args : arg_array) (n : nat) :
  forall i,
    (forall j a, i <= j < i + n -> nth_error args j = Some (Some a) ->
                 is_operator a = false) ->
    operator_slots args i n = [].
Proof.
  induction n as [| n IH]; intros i H; [reflexivity |].
  rewrite operator_slots_step, IH by (intros j a Hj; apply H; lia).
  rewrite app_nil_r. unfold slots_at.
  destruct (nth_error args i) as [[a |] |] eqn:A; try reflexivity.
  rewrite (H i a); [reflexivity | lia | exact A].
Qed.

(** The loop is left early only on a failure. *)
Lemma output_branch_stop (can_open : string -> open_flags -> bool)
  (args : arg_array) (i : nat) (l : redir_locals) (fds : fd_table)
  (args' : arg_array) :
  output_branch can_open args i l <> Stop (RedirDone fds args').
Proof.
  unfold output_branch.
  destruct (nth_error args (i + 1)) as [target |]; [| discriminate].
  destruct (sys_open can_open target O_WRONLY_CREAT_TRUNC (r_fds l))
    as [fds1 fd].
  destruct (fd =? -1)%Z; [discriminate |].
  destruct (record_pair i (args_to_remove l)); discriminate.
Qed.

Lemma input_branch_stop (can_open : string -> open_flags -> bool)
  (args : arg_array) (i : nat) (l : redir_locals) (fds : fd_table)
  (args' : arg_array) :
  input_branch can_open args i l <> Stop (RedirDone fds args').
Proof.
  unfold input_branch.
  destruct (nth_error args (i + 1)) as [target |]; [| discriminate].
  destruct (sys_open can_open target O_RDONLY (r_fds l)) as [fds1 fd].
  destruct (fd =? -1)%Z; [discriminate |].
  destruct (record_pair i (args_to_remove l)); discriminate.
Qed.

Lemma redirection_body_stop (can_open : string -> open_flags -> bool)
  (args : arg_array) (i : nat) (l : redir_locals) (fds : fd_table)
  (args' : arg_array) :
  redirection_body can_open args i l <> Stop (RedirDone fds args').
Proof.
  unfold redirection_body.
  destruct (nth_error args i) as [[a |] |]; try discriminate.
  destruct (a =? ">").
  - destruct (output_branch can_open args i l) as [l1 | r] eqn:B.
    + destruct (a =? "<"); [apply input_branch_stop | discriminate].
    + intros H. injection H as ->. revert B. apply output_branch_stop.
  - destruct (a =? "<"); [apply input_branch_stop | discriminate].
Qed.

Lemma redirection_loop_stop (can_open : string -> open_flags -> bool)
  (args : arg_array) (n : nat) (fds : fd_table) (args' : arg_array) :
  forall i l,
    redirection_loop can_open args n i l <> Stop (RedirDone fds args').
Proof.
  induction n as [| n IH]; intros i l; cbn [redirection_loop].
  - discriminate.
  - destruct (redirection_body can_open args i l) as [l1 | r] eqn:B.
    + apply IH.
    + intros H. injection H as ->. revert B. apply redirection_body_stop.
Qed.

(** ** The resolver as a whole *)

Lemma redirection_done (can_open : string -> open_flags -> bool)
  (garbage : Z) (fds0 : fd_table) (args : arg_array) (count : nat)
  (bg : Z) (fds : fd_table) (args' : arg_array) :
  redirection can_open garbage fds0 args count bg = RedirDone fds args' ->
  args' = remove_args (operator_slots args 0 (count - 1)) args /\
  Forall (fun idx => idx < List.length args)
         (operator_slots args 0 (count - 1)).
Proof.
  unfold redirection.
  destruct (sys_open can_open (Some "/dev/null") O_WRONLY fds0) as [fds1 on].
  destruct (sys_open can_open (Some "/dev/null") O_RDONLY fds1) as [fds2 inn].
  match goal with
  | |- context [redirection_loop ?c ?a ?n ?i ?l] =>
      destruct (redirection_loop c a n i l) as [l' | r] eqn:L
  end.
  - apply redirection_loop_next in L as [L1 L2]. simpl in L1.
    intros H. injection H as _ <-. rewrite L1. split; [reflexivity | exact L2].
  - intros ->. apply redirection_loop_stop in L. contradiction.
Qed.

(** ** The launcher *)

Lemma strip_background_inv (st : shell_state) (args args1 : arg_array)
  (count count1 : nat) (bg : Z) :
  strip_background st args count = Some (args1, count1, bg) ->
  count1 <= count /\
  List.length args1 = List.length args /\
  (forall j, j < count1 -> nth_error args1 j = nth_error args j) /\
  (forall j s, nth_error args1 j = Some (Some s) ->
               nth_error args j = Some (Some s)).
Proof.
  unfold strip_background. destruct count as [| last]; [discriminate |].
  destruct (nth_error args last) as [[a |] |] eqn:A; try discriminate.
  destruct (a =? "&"); intros H; injection H as <- <- <-.
  - assert (Hlast : last < List.length args)
      by (apply nth_error_Some; congruence).
    repeat split.
    + lia.
    + apply store_null_length.
    + intros j Hj. apply store_null_other. lia.
    + intros j s Hs. destruct (Nat.eq_dec last j) as [<- | Hne].
      * rewrite store_null_same in Hs by assumption. discriminate.
      * now rewrite store_null_other in Hs by assumption.
  - repeat split; auto.
Qed.

Lemma run_fork_child_argv (k : kernel) (args : arg_array) (count : nat)
  (bg : Z) (argv : list string) :
  execvp_argv (InChild (run_fork_child k args count bg)) = Some argv ->
  exists fds args',
    redirection (k_can_open k) (k_garbage k) (k_fds k) args count bg
    = RedirDone fds args' /\
    argv = argv_of args'.
Proof.
  unfold run_fork_child.
  destruct (redirection (k_can_open k) (k_garbage k) (k_fds k) args count bg)
    as [fds args' | fds file |]; try discriminate.
  destruct (nth_error args' 0) as [[file |] |]; try discriminate.
  destruct (k_can_exec k file); simpl; intros H; injection H as <-;
    exists fds, args'; auto.
Qed.

Lemma run_fork_argv (k : kernel) (st : shell_state) (args : arg_array)
  (count : nat) (argv : list string) :
  execvp_argv (run_fork k st args count) = Some argv ->
  exists args1 count1 bg,
    strip_background st args count = Some (args1, count1, bg) /\
    execvp_argv (InChild (run_fork_child k args1 count1 bg)) = Some argv.
Proof.
  unfold run_fork.
  destruct (strip_background st args count) as [[[args1 count1] bg] |].
  - destruct (k_fork k =? -1)%Z; [discriminate |].
    destruct (k_fork k =? 0)%Z; [| discriminate].
    intros H. exists args1, count1, bg. auto.
  - destruct (k_fork k =? 0)%Z; discriminate.
Qed.

Lemma args_of_tokens_slot_inv (tokens : list string) (j : nat) (s : string) :
  nth_error (args_of_tokens tokens) j = Some (Some s) ->
  nth_error tokens j = Some s.
Proof.
  unfold args_of_tokens. intros H.
  destruct (Nat.lt_ge_cases j (List.length tokens)) as [Hlt | Hge].
  - rewrite nth_error_app1 in H by now rewrite length_map.
    rewrite nth_error_map in H.
    destruct (nth_error tokens j); simpl in H; congruence.
  - rewrite nth_error_app2 in H by now rewrite length_map.
    rewrite length_map in H.
    destruct (j - List.length tokens) as [| [| m]]; simpl in H; discriminate.
Qed.

(** What an operator before the last slot does to the array handed to
    [execvp] and to the vector read from it. *)
Lemma operator_slot_nulled (can_open : string -> open_flags -> bool)
  (garbage : Z) (fds0 : fd_table) (args : arg_array) (count : nat)
  (bg : Z) (fds : fd_table) (args' : arg_array) (i : nat) (op : string) :
  redirection can_open garbage fds0 args count bg = RedirDone fds args' ->
  i + 1 < count ->
  nth_error args i = Some (Some op) ->
  is_operator op = true ->
  nth_error args' i = Some None /\
  nth_error args' (i + 1) = Some None /\
  List.length (argv_of args') <= i.
Proof.
  intros R Hi A O. apply redirection_done in R as [-> Hin].
  destruct (operator_slots_in args 0 (count - 1) i op) as [I1 I2];
    [lia | assumption | assumption |].
  rewrite Forall_forall in Hin.
  assert (N1 : nth_error (remove_args (operator_slots args 0 (count - 1)) args)
                 i = Some None)
    by (apply remove_args_nulled; auto).
  repeat split.
  - exact N1.
  - apply remove_args_nulled; auto.
  - now apply argv_stops_at_null.
Qed.


(** C9.  Whenever a child gets as far as [execvp] - every target opened -
    an operator of the line that is followed by a path token is absent
    from the vector [execvp] receives, and so is its path: the vector
    holds tokens of the line at their own index, all before the
    operator's. *)
Theorem redirection_pair_not_in_argv
  (k : kernel) (st : shell_state) (tokens : list string)
  (args1 : arg_array) (count1 : nat) (bg : Z)
  (argv : list string) (i : nat) (op : string) :
  strip_background st (args_of_tokens tokens) (List.length tokens)
  = Some (args1, count1, bg) ->
  execvp_argv (run_fork k st (args_of_tokens tokens) (List.length tokens))
  = Some argv ->
  i + 1 < count1 ->
  nth_error tokens i = Some op ->
  is_operator op = true ->
  nth_error argv i = None /\
  nth_error argv (i + 1) = None /\
  forall p s, nth_error argv p = Some s ->
              nth_error tokens p = Some s /\ p < i.
Proof.
  intros S E Hi T O.
  apply run_fork_argv in E as (a1 & c1 & b1 & S' & E).
  rewrite S in S'. injection S' as <- <- <-.
  apply run_fork_child_argv in E as (fds & args' & R & ->).
  apply strip_background_inv in S as (Hc & Hlen & Hsame & Hback).
  assert (A : nth_error args1 i = Some (Some op)).
  { rewrite Hsame by lia. now apply args_of_tokens_slot. }
  destruct (operator_slot_nulled _ _ _ _ _ _ _ _ i op R Hi A O)
    as (N1 & N2 & L).
  repeat split.
  - apply nth_error_None. exact L.
  - apply nth_error_None. lia.
  - apply argv_slot in H.
    apply redirection_done in R as [-> _].
    apply remove_args_slot in H as [H _].
    apply args_of_tokens_slot_inv, Hback, H.
  - assert (p < List.length (argv_of args'))
      by (apply nth_error_Some; congruence).
    lia.
Qed.

Lemma redirection_pair_not_in_argv_witness :
  nth_error ["wc"] 1 = None /\
  nth_error ["wc"] (1 + 1) = None /\
  forall p s, nth_error ["wc"] p = Some s ->
              nth_error ["wc"; "<"; "in"; "-l"] p = Some s /\ p < 1.
Proof.
  apply (redirection_pair_not_in_argv child_kernel initial_state
           ["wc"; "<"; "in"; "-l"]
           (args_of_tokens ["wc"; "<"; "in"; "-l"]) 4 0%Z ["wc"] 1 "<");
    try reflexivity.
  simpl. lia.
Defined.

(** C10.  In a child that gets as far as [execvp], an operator at index
    [i] before the last one leaves a null pointer in slot [i] of the
    array, and the vector [execvp] reads from that array ends there: it
    has at most [i] entries, so no token of index [i] or more reaches the
    program. *)
Theorem redirection_truncates_argv
  (k : kernel) (args : arg_array) (count : nat) (bg : Z)
  (argv : list string) (i : nat) (op : string) :
  execvp_argv (InChild (run_fork_child k args count bg)) = Some argv ->
  i + 1 < count ->
  nth_error args i = Some (Some op) ->
  is_operator op = true ->
  (exists fds args',
      redirection (k_can_open k) (k_garbage k) (k_fds k) args count bg
      = RedirDone fds args' /\
      nth_error args' i = Some None /\
      argv = argv_of args') /\
  List.length argv <= i /\
  forall p, i <= p -> nth_error argv p = None.
Proof.
  intros E Hi A O.
  apply run_fork_child_argv in E as (fds & args' & R & ->).
  destruct (operator_slot_nulled _ _ _ _ _ _ _ _ i op R Hi A O)
    as (N1 & N2 & L).
  repeat split.
  - exists fds, args'. auto.
  - exact L.
  - intros p Hp. apply nth_error_None. lia.
Qed.

Lemma redirection_truncates_argv_witness :
  (exists fds args',
      redirection (k_can_open child_kernel) (k_garbage child_kernel)
        (k_fds child_kernel)
        (args_of_tokens ["sort"; ">"; "out"; "-r"; "names"]) 5 0%Z
      = RedirDone fds args' /\
      nth_error args' 1 = Some None /\
      ["sort"] = argv_of args') /\
  List.length ["sort"] <= 1 /\
  forall p, 1 <= p -> nth_error ["sort"] p = None.
Proof.
  apply (redirection_truncates_argv child_kernel
           (args_of_tokens ["sort"; ">"; "out"; "-r"; "names"]) 5 0%Z
           ["sort"] 1 ">"); try reflexivity.
  lia.
Defined.

(** The first loop walks over plain words without doing anything. *)
Lemma redirection_loop_plain (can_open : string -> open_flags -> bool)
  (args : arg_array) (n : nat) :
  forall i l,
    (forall j, i <= j < i + n ->
               exists a, nth_error args j = Some (Some a) /\
                         is_operator a = false) ->
    redirection_loop can_open args n i l = Next l.
Proof.
  induction n as [| n IH]; intros i l H; [reflexivity |].
  cbn [redirection_loop].
  destruct (H i) as (a & A & O); [lia |].
  unfold redirection_body. rewrite A.
  unfold is_operator in O. apply orb_false_iff in O as [-> ->].
  apply IH. intros j Hj. apply H. lia.
Qed.

Lemma is_operator_not_background (op : string) :
  is_operator op = true -> (op =? "&") = false.
Proof.
  unfold is_operator. intros H. apply orb_true_iff in H.
  destruct H as [H | H]; apply String.eqb_eq in H; subst; reflexivity.
Qed.

Lemma nth_error_last_token (front : list string) (t : string) :
  nth_error (args_of_tokens (front ++ [t])) (List.length front)
  = Some (Some t).
Proof.
  apply args_of_tokens_slot.
  rewrite nth_error_app2, Nat.sub_diag by lia. reflexivity.
Qed.

(** C4, amended.  In a command handed to the launcher, a [<] or [>] that
    ends the line, after a command word and plain words only, is not
    resolved at all: the first loop stops one slot short of it, so no
    file is opened for it - the descriptors of the child are those it
    started with and the two on [/dev/null] that every child gets,
    standard input following the unassigned [input_file] - nothing is
    reported, and the child calls [execvp] with the whole line, operator
    included, as argument vector; the program runs if it exists. *)
Theorem final_operator_is_passed_as_argument
  (k : kernel) (st : shell_state) (cmd : string) (words : list string)
  (op : string) :
  k_fork k = 0%Z ->
  is_operator op = true ->
  Forall (fun t => is_operator t = false) (cmd :: words) ->
  let tokens := (cmd :: words ++ [op])%list in
  let fds1 :=
    fst (sys_open (k_can_open k) (Some "/dev/null") O_WRONLY (k_fds k)) in
  let fds2 :=
    fst (sys_open (k_can_open k) (Some "/dev/null") O_RDONLY fds1) in
  let fds :=
    if (k_garbage k =? -5)%Z then fds2 else sys_dup2 (k_garbage k) 0 fds2 in
  redirection (k_can_open k) (k_garbage k) (k_fds k)
    (args_of_tokens tokens) (List.length tokens) 0
  = RedirDone fds (args_of_tokens tokens) /\
  run_fork k st (args_of_tokens tokens) (List.length tokens)
  = InChild (if k_can_exec k cmd
             then Executes cmd tokens fds true
             else ExecFails cmd tokens
                    [Err ("bash: " ++ cmd ++ ": command not found" ++ nl)]
                    1%Z) /\
  execvp_argv (run_fork k st (args_of_tokens tokens) (List.length tokens))
  = Some tokens.
Proof.
  intros Hfork O Hplain tokens fds1 fds2 fds.
  assert (Hs : strip_background st (args_of_tokens tokens) (List.length tokens)
              = Some (args_of_tokens tokens, List.length tokens, 0%Z)).
  { unfold strip_background, tokens.
    change (List.length (cmd :: words ++ [op]))
      with (S (List.length (words ++ [op]))).
    replace (List.length (words ++ [op])) with (List.length (cmd :: words))
      by (rewrite length_app; simpl; lia).
    change (cmd :: words ++ [op])%list with ((cmd :: words) ++ [op])%list.
    rewrite nth_error_last_token, (is_operator_not_background op O).
    reflexivity. }
  assert (L : forall l,
             redirection_loop (k_can_open k) (args_of_tokens tokens)
               (List.length tokens - 1) 0 l = Next l).
  { intros l. apply redirection_loop_plain. intros j Hj.
    assert (Hlen : List.length tokens = S (List.length (cmd :: words))).
    { unfold tokens. simpl. rewrite length_app. simpl. lia. }
    assert (Hjw : j < List.length (cmd :: words)) by lia.
    destruct (nth_error (cmd :: words) j) as [a |] eqn:A;
      [| apply nth_error_None in A; lia].
    exists a. split.
    - apply args_of_tokens_slot. unfold tokens.
      change (cmd :: words ++ [op])%list with ((cmd :: words) ++ [op])%list.
      rewrite nth_error_app1 by assumption. exact A.
    - rewrite Forall_forall in Hplain. apply Hplain.
      eapply nth_error_In; eassumption. }
  assert (R : redirection (k_can_open k) (k_garbage k) (k_fds k)
                (args_of_tokens tokens) (List.length tokens) 0
              = RedirDone fds (args_of_tokens tokens)).
  { unfold redirection, fds, fds2, fds1.
    destruct (sys_open (k_can_open k) (Some "/dev/null") O_WRONLY (k_fds k))
      as [t1 on].
    cbn [fst].
    destruct (sys_open (k_can_open k) (Some "/dev/null") O_RDONLY t1)
      as [t2 inn].
    rewrite L.
    cbn [fst r_fds output_file input_file args_to_remove remove_args
         fold_left Z.eqb andb].
    rewrite andb_false_r. reflexivity. }
  assert (C : run_fork k st (args_of_tokens tokens) (List.length tokens)
              = InChild (if k_can_exec k cmd
                         then Executes cmd tokens fds true
                         else ExecFails cmd tokens
                                [Err ("bash: " ++ cmd ++ ": command not found"
                                        ++ nl)] 1%Z)).
  { unfold run_fork. rewrite Hs, Hfork. cbn [Z.eqb].
    unfold run_fork_child. rewrite R.
    unfold args_of_tokens at 1 2 3. rewrite argv_of_tokens.
    reflexivity. }
  split; [exact R | split; [exact C |]].
  rewrite C. destruct (k_can_exec k cmd); reflexivity.
Qed.

Lemma final_operator_is_passed_as_argument_witness :
  let fds1 :=
    fst (sys_open (k_can_open child_kernel) (Some "/dev/null") O_WRONLY
           (k_fds child_kernel)) in
  let fds2 :=
    fst (sys_open (k_can_open child_kernel) (Some "/dev/null") O_RDONLY
           fds1) in
  let fds :=
    if (k_garbage child_kernel =? -5)%Z then fds2
    else sys_dup2 (k_garbage child_kernel) 0 fds2 in
  redirection (k_can_open child_kernel) (k_garbage child_kernel)
    (k_fds child_kernel) (args_of_tokens ["echo"; "hi"; ">"]) 3 0
  = RedirDone fds (args_of_tokens ["echo"; "hi"; ">"]) /\
  run_fork child_kernel initial_state (args_of_tokens ["echo"; "hi"; ">"]) 3
  = InChild (if k_can_exec child_kernel "echo"
             then Executes "echo" ["echo"; "hi"; ">"] fds true
             else ExecFails "echo" ["echo"; "hi"; ">"]
                    [Err ("bash: " ++ "echo" ++ ": command not found" ++ nl)]
                    1%Z) /\
  execvp_argv (run_fork child_kernel initial_state
                 (args_of_tokens ["echo"; "hi"; ">"]) 3)
  = Some ["echo"; "hi"; ">"].
Proof.
  apply (final_operator_is_passed_as_argument child_kernel initial_state
           "echo" ["hi"] ">"); try reflexivity.
  repeat constructor.
Defined.

(** C4, as stated, fails: the line [echo hi >] is run, the operator being
    the third argument of [echo]; no error is raised. *)
Lemma final_operator_is_executed :
  shell_loop_pass child_kernel initial_state ("echo hi >" ++ nl)
  = InChild
      (Executes "echo" ["echo"; "hi"; ">"]
         [Some (Inherited 0); Some (Inherited 1); Some (Inherited 2);
          Some (Opened "/dev/null" O_WRONLY);
          Some (Opened "/dev/null" O_RDONLY)]
         true).
Proof. reflexivity. Qed.


(** ** The uninitialised [input_file] *)

(** The descriptors of a child once the resolver has opened [/dev/null]
    twice. *)
Lemma dev_null_opened (can_open : string -> open_flags -> bool) :
  can_open "/dev/null" O_WRONLY = true ->
  can_open "/dev/null" O_RDONLY = true ->
  sys_open can_open (Some "/dev/null") O_RDONLY
    (fst (sys_open can_open (Some "/dev/null") O_WRONLY standard_fds))
  = ([Some (Inherited 0); Some (Inherited 1); Some (Inherited 2);
      Some (Opened "/dev/null" O_WRONLY); Some (Opened "/dev/null" O_RDONLY)],
     4%Z)
  /\ sys_open can_open (Some "/dev/null") O_WRONLY standard_fds
     = ([Some (Inherited 0); Some (Inherited 1); Some (Inherited 2);
         Some (Opened "/dev/null" O_WRONLY)], 3%Z).
Proof.
  intros Hw Hr. unfold sys_open. rewrite Hw. cbn [fst]. rewrite Hr.
  split; reflexivity.
Qed.

(** C5.  For a foreground command without any operator the resolver
    tests [input_file], which nothing has assigned: standard input stays
    as it was only if the stack happened to hold -5 or a number that is
    not an open descriptor; otherwise it is re-attached to whatever that
    descriptor is. *)
Theorem stdin_follows_uninitialised_input_file
  (k : kernel) (cmd : string) (words : list string) :
  k_fds k = standard_fds ->
  k_can_open k "/dev/null" O_WRONLY = true ->
  k_can_open k "/dev/null" O_RDONLY = true ->
  Forall (fun t => is_operator t = false) (cmd :: words) ->
  let tokens := cmd :: words in
  let opened :=
    [Some (Inherited 0); Some (Inherited 1); Some (Inherited 2);
     Some (Opened "/dev/null" O_WRONLY); Some (Opened "/dev/null" O_RDONLY)] in
  exists fds,
    redirection (k_can_open k) (k_garbage k) (k_fds k)
      (args_of_tokens tokens) (List.length tokens) 0
    = RedirDone fds (args_of_tokens tokens) /\
    fd_get 0 fds
    = if (k_garbage k =? -5)%Z then Some (Inherited 0)
      else match fd_get (k_garbage k) opened with
           | Some d => Some d
           | None => Some (Inherited 0)
           end.
Proof.
  intros Hfds Hw Hr Hplain tokens opened.
  destruct (dev_null_opened (k_can_open k) Hw Hr) as [E2 E1].
  unfold redirection. rewrite Hfds.
  rewrite E1 in E2 |- *. cbn [fst] in E2. rewrite E2.
  rewrite redirection_loop_plain.
  - cbn [output_file input_file r_fds args_to_remove remove_args fold_left].
    change ((-5 =? -5)%Z) with true. cbn [andb Z.eqb].
    eexists. split; [reflexivity |].
    destruct (k_garbage k =? -5)%Z; [reflexivity |].
    unfold sys_dup2. fold opened.
    destruct (fd_get (k_garbage k) opened); reflexivity.
  - intros j Hj.
    destruct (nth_error tokens j) as [a |] eqn:A;
      [| apply nth_error_None in A; lia].
    exists a. split; [now apply args_of_tokens_slot |].
    rewrite Forall_forall in Hplain. apply Hplain.
    eapply nth_error_In; eassumption.
Qed.

Lemma stdin_follows_uninitialised_input_file_witness :
  exists fds,
    redirection (k_can_open garbage_kernel) (k_garbage garbage_kernel)
      (k_fds garbage_kernel) (args_of_tokens ["cat"]) 1 0
    = RedirDone fds (args_of_tokens ["cat"]) /\
    fd_get 0 fds = Some (Opened "/dev/null" O_RDONLY).
Proof.
  apply (stdin_follows_uninitialised_input_file garbage_kernel "cat" []);
    try reflexivity.
  repeat constructor.
Defined.

(** ** Foreground-only mode *)

Lemma operator_slots_bound (args : arg_array) (n : nat) :
  forall i, Forall (fun idx => idx <= i + n) (operator_slots args i n).
Proof.
  induction n as [| n IH]; intros i; [constructor |].
  rewrite operator_slots_step. apply Forall_app. split.
  - unfold slots_at. destruct (nth_error args i) as [[a |] |];
      try constructor.
    destruct (is_operator a); repeat constructor; lia.
  - eapply Forall_impl; [| apply (IH (S i))]. simpl. intros; lia.
Qed.

Lemma argv_of_terminated (words extra : arg_array) :
  argv_of (words ++ None :: extra)%list = argv_of (words ++ [None])%list.
Proof.
  induction words as [| [a |] words IH]; simpl; [reflexivity | | reflexivity].
  now rewrite IH.
Qed.

Lemma first_slot_terminated (words extra : arg_array) :
  nth_error (words ++ None :: extra)%list 0
  = nth_error (words ++ [None])%list 0.
Proof. destruct words; reflexivity. Qed.

(** Slots after the terminator that follows the [count] words of a command
    do not matter to the child. *)
Lemma run_fork_child_terminated (k : kernel) (words extra : arg_array)
  (bg : Z) :
  run_fork_child k (words ++ None :: extra)%list (List.length words) bg
  = run_fork_child k (words ++ [None])%list (List.length words) bg.
Proof.
  assert (Hloop : forall l,
             redirection_loop (k_can_open k) (words ++ None :: extra)%list
               (List.length words - 1) 0 l
             = redirection_loop (k_can_open k) (words ++ [None])%list
                 (List.length words - 1) 0 l).
  { intros l. apply redirection_loop_ext. intros j Hj.
    destruct words as [| w words].
    - simpl in Hj. replace j with 0 by lia. reflexivity.
    - simpl List.length in Hj.
      rewrite !nth_error_app1 by (simpl; lia). reflexivity. }
  unfold run_fork_child, redirection.
  destruct (sys_open (k_can_open k) (Some "/dev/null") O_WRONLY (k_fds k))
    as [fds1 on].
  destruct (sys_open (k_can_open k) (Some "/dev/null") O_RDONLY fds1)
    as [fds2 inn].
  rewrite Hloop.
  match goal with
  | |- context [redirection_loop ?c ?a ?n ?i ?l] =>
      destruct (redirection_loop c a n i l) as [l' | r] eqn:L
  end; [| reflexivity].
  apply redirection_loop_next in L as [L1 _]. cbn [args_to_remove] in L1.
  rewrite L1. cbn [app].
  assert (Hin : Forall (fun idx => idx < List.length words)
                  (operator_slots (words ++ [None])%list 0
                     (List.length words - 1))).
  { destruct words as [| w words]; [constructor |].
    eapply Forall_impl; [| apply operator_slots_bound].
    simpl. intros; lia. }
  rewrite !remove_args_app by assumption.
  rewrite argv_of_terminated, first_slot_terminated. reflexivity.
Qed.

Lemma args_of_tokens_background (tokens : list string) :
  store_null (List.length tokens) (args_of_tokens (tokens ++ ["&"]))
  = (map Some tokens ++ [None; None])%list.
Proof.
  unfold args_of_tokens. rewrite map_app, <- app_assoc. simpl.
  induction tokens as [| t tokens IH]; simpl; [reflexivity | now rewrite IH].
Qed.

(** C8, amended.  In foreground-only mode the launcher does the same
    thing, in the parent (blocking [waitpid], stored status, report) and
    in the child (descriptors, signal disposition, argument vector), for
    a command handed to it with one [&] at its end - a command that is
    not empty and does not itself end in [&] - and for that command
    without the [&]. *)
Theorem background_marker_ignored_in_foreground_only_mode
  (k : kernel) (st : shell_state) (tokens : list string) :
  z_mode st <> 0%Z ->
  tokens <> [] ->
  last tokens "" <> "&" ->
  run_fork k st (args_of_tokens (tokens ++ ["&"]))
    (List.length (tokens ++ ["&"]))
  = run_fork k st (args_of_tokens tokens) (List.length tokens).
Proof.
  intros Hz Hne Hlast.
  assert (S1 : strip_background st (args_of_tokens (tokens ++ ["&"]))
                 (List.length (tokens ++ ["&"]))
               = Some ((map Some tokens ++ [None; None])%list,
                       List.length tokens, 0%Z)).
  { unfold strip_background.
    replace (List.length (tokens ++ ["&"])) with (S (List.length tokens))
      by (rewrite length_app; simpl; lia).
    rewrite nth_error_last_token. cbn [String.eqb Ascii.eqb Bool.eqb].
    rewrite args_of_tokens_background.
    destruct (Z.eqb_spec (z_mode st) 0); [contradiction | reflexivity]. }
  assert (S2 : strip_background st (args_of_tokens tokens)
                 (List.length tokens)
               = Some (args_of_tokens tokens, List.length tokens, 0%Z)).
  { destruct (exists_last Hne) as (front & t & ->).
    rewrite last_last in Hlast.
    unfold strip_background.
    replace (List.length (front ++ [t])) with (S (List.length front))
      by (rewrite length_app; simpl; lia).
    rewrite nth_error_last_token.
    destruct (String.eqb_spec t "&"); [contradiction | reflexivity]. }
  unfold run_fork. rewrite S1, S2.
  destruct (k_fork k =? -1)%Z; [reflexivity |].
  destruct (k_fork k =? 0)%Z; [| reflexivity].
  f_equal. unfold args_of_tokens.
  rewrite <- (length_map Some tokens).
  apply run_fork_child_terminated.
Qed.

Lemma background_marker_ignored_in_foreground_only_mode_witness :
  run_fork parent_kernel foreground_only_state
    (args_of_tokens ["sleep"; "5"; "&"]) 3
  = InParent
      (ShellContinues
         {| current_foreground_pid := 700%Z; exit_method := 768%Z;
            z_mode := 1%Z; num_background_process := 0%Z |}
         [WaitFor 700%Z 0%Z]).
Proof.
  etransitivity.
  - apply (background_marker_ignored_in_foreground_only_mode parent_kernel
             foreground_only_state ["sleep"; "5"]); discriminate.
  - reflexivity.
Defined.

(** C8, as stated, fails: in foreground-only mode the built-in [cd]
    takes a trailing [&] for the directory to enter, where [cd] alone
    goes to the home directory; and of two [&] that end a line only the
    last is taken off, so [sleep 5 & &] hands an [&] to the program,
    which [sleep 5 &] does not. *)
Lemma background_marker_reaches_cd_and_program :
  z_mode foreground_only_state <> 0%Z /\
  shell_loop_pass parent_kernel foreground_only_state ("cd &" ++ nl)
  = InParent
      (ShellContinues foreground_only_state
         [Out ": "; Chdir (Some "/tmp/&")]) /\
  shell_loop_pass parent_kernel foreground_only_state ("cd" ++ nl)
  = InParent
      (ShellContinues foreground_only_state
         [Out ": "; Chdir (Some "/root")]) /\
  shell_loop_pass parent_kernel foreground_only_state ("cd &" ++ nl)
  <> shell_loop_pass parent_kernel foreground_only_state ("cd" ++ nl) /\
  execvp_argv
    (shell_loop_pass child_kernel foreground_only_state
       ("sleep 5 & &" ++ nl))
  = Some ["sleep"; "5"; "&"] /\
  execvp_argv
    (shell_loop_pass child_kernel foreground_only_state ("sleep 5 &" ++ nl))
  = Some ["sleep"; "5"].
Proof.
  split; [discriminate |].
  split; [reflexivity |].
  split; [reflexivity |].
  split; [discriminate |].
  split; reflexivity.
Qed.


(** ** The exit built-in *)

Lemma kill_group_addresses (caller p : process) (group_pid : Z) :
  (1 < group_pid)%Z ->
  kill_addresses caller (- group_pid)%Z p = (p_pgid p =? group_pid)%Z.
Proof.
  intros H. unfold kill_addresses.
  destruct (Z.ltb_spec 0 (- group_pid)); [lia |].
  destruct (Z.eqb_spec (- group_pid) 0); [lia |].
  destruct (Z.eqb_spec (- group_pid) (-1)); [lia |].
  now rewrite Z.opp_involutive.
Qed.

Lemma deliver_running (sig : Z) (p : process) :
  p_status p = Running ->
  p_status (deliver sig p)
  = match p_action p sig with
    | SigDefault => Killed sig
    | _ => Running
    end.
Proof.
  intros H. unfold deliver. rewrite H.
  destruct (p_action p sig); simpl; auto.
Qed.

(** C6, amended.  [exit] sends SIGTERM to the whole process group of the
    shell, the shell included.  A shell that runs with the default action
    for SIGTERM is killed by it and never reaches [exit(0)]; it exits with
    code 0 only when the signal does not terminate it.  Every other
    process receives the signal exactly when it belongs to the group. *)
Theorem exit_shell_outcome (self : process) (others : list process) :
  p_status self = Running ->
  (1 < p_pgid self)%Z ->
  p_status (fst (exit_shell self others))
  = match p_action self SIGTERM with
    | SigDefault => Killed SIGTERM
    | _ => Exited 0
    end
  /\ snd (exit_shell self others)
     = map (fun p => if (p_pgid p =? p_pgid self)%Z
                     then deliver SIGTERM p else p) others.
Proof.
  intros Hrun Hgroup. unfold exit_shell, sys_kill.
  rewrite kill_group_addresses, Z.eqb_refl by assumption.
  assert (Hothers :
            map (fun p => if kill_addresses self (- p_pgid self) p
                          then deliver SIGTERM p else p) others
            = map (fun p => if (p_pgid p =? p_pgid self)%Z
                            then deliver SIGTERM p else p) others).
  { apply map_ext. intros p. now rewrite kill_group_addresses. }
  pose proof (deliver_running SIGTERM self Hrun) as D.
  destruct (p_action self SIGTERM); rewrite D; cbn [fst snd p_status];
    auto.
Qed.

Lemma exit_shell_outcome_witness :
  p_status (fst (exit_shell shell_process background_children))
  = Killed SIGTERM
  /\ snd (exit_shell shell_process background_children)
     = map (fun p => if (p_pgid p =? 4321)%Z then deliver SIGTERM p else p)
         background_children.
Proof.
  apply (exit_shell_outcome shell_process background_children);
    reflexivity.
Defined.

(** C6, as stated, fails: a shell started with the default action for
    SIGTERM does not end with exit code 0 but dies of the signal it sent
    to its own group, together with its two background children. *)
Lemma exit_shell_dies_by_signal :
  p_status (fst (exit_shell shell_process background_children))
  = Killed SIGTERM /\
  p_status (fst (exit_shell shell_process background_children))
  <> Exited 0 /\
  map p_status (snd (exit_shell shell_process background_children))
  = [Killed SIGTERM; Killed SIGTERM].
Proof. repeat split. discriminate. Qed.


(* ================================================================== *)
(** * Part III: further properties of the code                         *)
(* ================================================================== *)

(** ** Tokenizer *)

Lemma no_space_app (a b : string) :
  no_space (a ++ b) = (no_space a && no_space b)%bool.
Proof.
  induction a as [| c a IH]; simpl; [reflexivity |].
  rewrite IH. now rewrite andb_assoc.
Qed.

Lemma strtok_loop_word (w : string) :
  no_space w = true ->
  forall current rest,
    strtok_loop current (w ++ rest) = strtok_loop (current ++ w) rest.
Proof.
  induction w as [| c w IH]; intros Hw current rest.
  - now rewrite str_app_nil_r.
  - simpl in Hw. apply andb_prop in Hw as [Hc Hw].
    apply negb_true_iff in Hc. unfold is_space in Hc.
    cbn [append strtok_loop]. rewrite Hc, (IH Hw), str_app_assoc.
    reflexivity.
Qed.

Lemma strtok_loop_separator (current rest : string) :
  current <> EmptyString ->
  strtok_loop current (String " " rest) = current :: strtok_loop "" rest.
Proof. intros H. destruct current; [contradiction | reflexivity]. Qed.

(** Tokens are words, and together they hold every character of the line
    that is not a space, in order. *)
Lemma strtok_loop_words (text : string) :
  forall current,
    no_space current = true ->
    Forall is_word (strtok_loop current text) /\
    String.concat "" (strtok_loop current text)
    = current ++ remove_spaces text.
Proof.
  induction text as [| c text IH]; intros current Hc.
  - destruct current as [| d current'].
    + split; [constructor | reflexivity].
    + split.
      * repeat constructor; [discriminate | assumption].
      * cbn [strtok_loop String.concat remove_spaces].
        now rewrite str_app_nil_r.
  - cbn [strtok_loop remove_spaces]. fold (is_space c).
    destruct (is_space c) eqn:Ec.
    + destruct (IH "" eq_refl) as [W C].
      destruct current as [| d current'].
      * split; assumption.
      * split.
        -- constructor; [split; [discriminate | assumption] | exact W].
        -- change (String.concat "" (String d current' :: strtok_loop "" text))
             with (match strtok_loop "" text with
                   | [] => String d current'
                   | _ :: _ => String d current' ++ "" ++
                               String.concat "" (strtok_loop "" text)
                   end).
           destruct (strtok_loop "" text) as [| t ts] eqn:E.
           ++ cbn in C. rewrite <- C. now rewrite str_app_nil_r.
           ++ rewrite C. reflexivity.
    + assert (Hc' : no_space (current ++ String c "") = true).
      { rewrite no_space_app, Hc. simpl. now rewrite Ec. }
      destruct (IH _ Hc') as [W C]. split; [exact W |].
      rewrite C, str_app_assoc. reflexivity.
Qed.

(** X1.  Every token of a line is non-empty and free of spaces, and the
    tokens put end to end are the line with its spaces taken out. *)
Theorem tokenize_words (line : string) :
  Forall is_word (tokenize line) /\
  String.concat "" (tokenize line) = remove_spaces line.
Proof. apply (strtok_loop_words line ""). reflexivity. Qed.

(** X2.  Words joined by single spaces are given back by the tokenizer,
    each one whole and in order. *)
Theorem tokenize_join_words (words : list string) :
  Forall is_word words ->
  tokenize (join_words words) = words.
Proof.
  intros H. unfold tokenize. induction H as [| w words [Hne Hw] Hws IH].
  - reflexivity.
  - destruct words as [| w2 words'].
    + cbn [join_words]. rewrite <- (str_app_nil_r w) at 1.
      rewrite strtok_loop_word by assumption. cbn [append strtok_loop].
      destruct w; [contradiction | reflexivity].
    + change (join_words (w :: w2 :: words'))
        with (w ++ " " ++ join_words (w2 :: words')).
      rewrite strtok_loop_word by assumption. cbn [append].
      rewrite strtok_loop_separator by assumption.
      now rewrite IH.
Qed.

Lemma tokenize_join_words_witness :
  tokenize "ls -la /tmp" = ["ls"; "-la"; "/tmp"].
Proof.
  apply (tokenize_join_words ["ls"; "-la"; "/tmp"]).
  repeat constructor; discriminate.
Defined.

(** ** The newline of the last argument *)

Lemma chop_newline_app (s : string) : chop_newline (s ++ nl) = s.
Proof.
  induction s as [| c s IH]; [reflexivity |].
  rewrite str_app_cons. destruct s as [| d s'].
  - reflexivity.
  - rewrite str_app_cons in *. cbn [chop_newline] in *. now rewrite IH.
Qed.

Lemma chop_newline_only (s : string) :
  chop_newline s = s \/ s = chop_newline s ++ nl.
Proof.
  induction s as [| c s IH]; [left; reflexivity |].
  destruct s as [| d s'].
  - cbn [chop_newline]. destruct (Ascii.eqb_spec c newline) as [-> | _];
      [right | left]; reflexivity.
  - change (chop_newline (String c (String d s')))
      with (String c (chop_newline (String d s'))).
    destruct IH as [-> | IH]; [left; reflexivity | right].
    rewrite str_app_cons. now rewrite <- IH.
Qed.

(** X3.  The dispatcher's chopping undoes the newline [getline] leaves at
    the end of the last token, and takes away nothing but one final
    newline. *)
Theorem chop_newline_spec (s : string) :
  chop_newline (s ++ nl) = s /\
  (chop_newline s = s \/ s = chop_newline s ++ nl).
Proof.
  split.
  - apply chop_newline_app.
  - apply chop_newline_only.
Qed.

(** ** Expander *)

Lemma str_take_shorter (n : nat) (s : string) :
  String.length (str_take n s) <= String.length s.
Proof.
  revert n; induction s as [| c s IH]; intros [| n]; simpl; try lia.
  specialize (IH n). lia.
Qed.

Lemma some_string_inj (a b : string) : Some a = Some b -> a = b.
Proof. congruence. Qed.

Lemma expand_step_fits (capacity : nat) (pid : Z) (command command' : string)
  (pos : nat) :
  expand_step capacity pid command pos = Some command' -> fits command'.
Proof.
  unfold fits, expand_step, strncpy, snprintf.
  destruct (MAX_COMMAND_LENGTH <=? capacity)%nat; [| discriminate].
  intros H. apply some_string_inj in H. subst command'.
  match goal with
  | |- String.length (str_take ?n (str_take ?m ?t)) < _ =>
      pose proof (str_take_shorter n (str_take m t));
      pose proof (str_take_length m t)
  end.
  unfold MAX_COMMAND_LENGTH in *. lia.
Qed.

Lemma expand_pid_loop_result (capacity : nat) (pid : Z) (fuel : nat) :
  forall s r,
    expand_pid_loop fuel capacity pid s = Some r ->
    strstr r "$$" = None /\
    (strstr s "$$" = None -> r = s) /\
    (fits s \/ strstr s "$$" <> None -> fits r) /\
    (strstr s "$$" <> None -> MAX_COMMAND_LENGTH <= capacity).
Proof.
  induction fuel as [| fuel IH]; intros s r H; cbn [expand_pid_loop] in H;
    destruct (strstr s "$$") as [pos |] eqn:E; try discriminate.
  - injection H as <-. repeat split; auto; try congruence.
    intros [F | F]; congruence.
  - destruct (expand_step capacity pid s pos) as [s' |] eqn:S;
      [| discriminate].
    specialize (IH _ _ H) as (T & _ & F & _). repeat split.
    + exact T.
    + discriminate.
    + intros _. apply F. left. eapply expand_step_fits; eassumption.
    + intros _. unfold expand_step in S.
      destruct (Nat.leb_spec MAX_COMMAND_LENGTH capacity);
        [assumption | discriminate].
  - injection H as <-. repeat split; auto; try congruence.
    intros [F | F]; congruence.
Qed.

Lemma expand_pid_fixed_point (capacity : nat) (pid : Z) (r : string) :
  strstr r "$$" = None -> expand_pid capacity pid r = Some r.
Proof.
  intros T. unfold expand_pid.
  destruct (String.length r); cbn [expand_pid_loop]; now rewrite T.
Qed.

(** X4.  In a block that holds the [MAX_COMMAND_LENGTH] bytes a pass
    copies, the loop of the expander ends on every line, cut short or
    not; what it returns holds no token any more, and expanding it again
    changes nothing. *)
Theorem expand_pid_leaves_no_token (capacity : nat) (pid : Z) (line : string) :
  MAX_COMMAND_LENGTH <= capacity ->
  exists r,
    expand_pid capacity pid line = Some r /\
    strstr r "$$" = None /\
    expand_pid capacity pid r = Some r.
Proof.
  intros Hcap.
  destruct (expand_pid_total capacity pid line Hcap) as [r H]. exists r.
  destruct (expand_pid_loop_result capacity pid _ _ _ H) as (T & _ & _).
  repeat split; [assumption | assumption |].
  now apply expand_pid_fixed_point.
Qed.

Lemma expand_pid_leaves_no_token_witness :
  exists r,
    expand_pid 3002 4321 (str_repeat "$" 3001) = Some r /\
    strstr r "$$" = None /\
    expand_pid 3002 4321 r = Some r.
Proof.
  apply (expand_pid_leaves_no_token 3002 4321 (str_repeat "$" 3001)).
  unfold MAX_COMMAND_LENGTH. lia.
Defined.

(** X5.  A line that holds a token and whose expansion returns comes out
    short enough for the buffer, however long it went in: the excess is
    cut off.  (A line without a token is returned as it is, whatever its
    length.) *)
Theorem expand_pid_result_fits (capacity : nat) (pid : Z) (line r : string) :
  strstr line "$$" <> None ->
  expand_pid capacity pid line = Some r ->
  String.length r < MAX_COMMAND_LENGTH.
Proof.
  intros T H.
  destruct (expand_pid_loop_result capacity pid _ _ _ H) as (_ & _ & F & _).
  apply F. right. exact T.
Qed.

Lemma expand_pid_result_fits_witness :
  String.length (str_repeat "x" 2047) < MAX_COMMAND_LENGTH.
Proof.
  apply (expand_pid_result_fits 3003 7 (str_repeat "x" 3000 ++ "$$")
           (str_repeat "x" 2047)).
  - vm_compute. discriminate.
  - vm_compute. reflexivity.
Defined.

(** X6.  When the block holds the [MAX_COMMAND_LENGTH] bytes a pass
    copies and the decimal process id has two digits or more, a pass
    never shortens the line, so it is enough that the expanded line fits:
    the expander then returns the left-to-right scan of the line, every
    token replaced by the process id. *)
Theorem expand_pid_scan_two_digits (capacity : nat) (pid : Z) (line : string) :
  MAX_COMMAND_LENGTH <= capacity ->
  2 <= String.length (dec pid) ->
  fits (replace_pid_tokens pid line) ->
  expand_pid capacity pid line = Some (replace_pid_tokens pid line).
Proof.
  intros Hcap Hd Hout. apply expand_pid_scan; [exact Hcap | | exact Hout].
  unfold fits in *. pose proof (replace_length_grows pid line Hd). lia.
Qed.

Lemma expand_pid_scan_two_digits_witness :
  expand_pid 2048 42 ("cat $$$.log " ++ str_repeat "b" 2035)
  = Some (replace_pid_tokens 42 ("cat $$$.log " ++ str_repeat "b" 2035)).
Proof.
  apply (expand_pid_scan_two_digits 2048 42
           ("cat $$$.log " ++ str_repeat "b" 2035)).
  - unfold MAX_COMMAND_LENGTH. lia.
  - simpl. lia.
  - unfold fits. vm_compute. lia.
Defined.

(** X29.  A line that holds a token and was read into a block of fewer
    than [MAX_COMMAND_LENGTH] bytes - as [getline], which sizes the block
    after the line, gives a short line - is not expanded: the first pass
    copies [MAX_COMMAND_LENGTH] bytes into the block and overruns it.  A
    line without a token is returned as it is in any block, and these
    are the only lines on which the expander fails. *)
Theorem expand_pid_overruns_small_block
  (capacity : nat) (pid : Z) (line : string) :
  (strstr line "$$" <> None ->
   capacity < MAX_COMMAND_LENGTH ->
   expand_pid capacity pid line = None) /\
  (strstr line "$$" = None -> expand_pid capacity pid line = Some line) /\
  (expand_pid capacity pid line = None ->
   strstr line "$$" <> None /\ capacity < MAX_COMMAND_LENGTH).
Proof.
  split; [| split].
  - intros T Hcap. unfold expand_pid.
    destruct (String.length line); cbn [expand_pid_loop];
      destruct (strstr line "$$") as [pos |]; try congruence.
    unfold expand_step.
    destruct (Nat.leb_spec MAX_COMMAND_LENGTH capacity); [lia | reflexivity].
  - apply expand_pid_fixed_point.
  - intros H.
    destruct (strstr line "$$") as [pos |] eqn:T.
    + split; [discriminate |].
      destruct (Nat.lt_ge_cases capacity MAX_COMMAND_LENGTH) as [L | G];
        [exact L |].
      destruct (expand_pid_total capacity pid line G) as [r R]. congruence.
    + rewrite expand_pid_fixed_point in H by assumption. discriminate.
Qed.

Lemma expand_pid_overruns_small_block_witness :
  expand_pid 120 4321 ("echo $$" ++ nl) = None.
Proof.
  apply (expand_pid_overruns_small_block 120 4321 ("echo $$" ++ nl)).
  - discriminate.
  - unfold MAX_COMMAND_LENGTH. lia.
Defined.

(** ** The descriptor table *)

Lemma slot_nil (m : nat) : slot [] m = None.
Proof. destruct m; reflexivity. Qed.

Lemma slot_fd_set (n : nat) (v : option file_desc) :
  forall fds m,
    slot (fd_set n v fds) m = if (m =? n)%nat then v else slot fds m.
Proof.
  unfold slot. induction n as [| n IH]; intros [| d fds] [| m]; simpl;
    try reflexivity.
  - now destruct m.
  - rewrite IH. destruct (m =? n)%nat; [reflexivity | now destruct m].
  - apply IH.
Qed.

Lemma lowest_free_closed (fds : fd_table) : slot fds (lowest_free fds) = None.
Proof.
  unfold slot. induction fds as [| [d |] fds IH]; simpl; auto.
Qed.

Lemma lowest_free_least (fds : fd_table) (m : nat) :
  slot fds m = None -> lowest_free fds <= m.
Proof.
  unfold slot. revert m.
  induction fds as [| [d |] fds IH]; intros m H; simpl; try lia.
  destruct m as [| m]; [discriminate |]. simpl in H.
  specialize (IH m H). lia.
Qed.

Lemma lowest_free_above_std (fds : fd_table) :
  std_streams_open fds -> 2 <= lowest_free fds.
Proof.
  intros [H0 H1].
  destruct (lowest_free fds) as [| [| n]] eqn:E; try lia;
    pose proof (lowest_free_closed fds) as C; rewrite E in C; contradiction.
Qed.

Lemma fd_get_of_nat (n : nat) (fds : fd_table) :
  fd_get (Z.of_nat n) fds = slot fds n.
Proof.
  unfold fd_get, slot.
  destruct (Z.ltb_spec (Z.of_nat n) 0); [lia |].
  now rewrite Nat2Z.id.
Qed.

Lemma sys_dup2_slot (oldfd : Z) (newfd : nat) (fds : fd_table) (m : nat) :
  slot (sys_dup2 oldfd newfd fds) m
  = match fd_get oldfd fds with
    | Some d => if (m =? newfd)%nat then Some d else slot fds m
    | None => slot fds m
    end.
Proof.
  unfold sys_dup2. destruct (fd_get oldfd fds); [| reflexivity].
  apply slot_fd_set.
Qed.

(** A successful [open] takes the lowest closed descriptor and changes no
    other. *)
Lemma sys_open_inv (can_open : string -> open_flags -> bool)
  (path : option string) (flags : open_flags) (fds fds' : fd_table) (fd : Z) :
  sys_open can_open path flags fds = (fds', fd) ->
  (fd = (-1)%Z /\ fds' = fds) \/
  (exists p, path = Some p /\ can_open p flags = true /\
             fd = Z.of_nat (lowest_free fds) /\
             fds' = fd_set (lowest_free fds) (Some (Opened p flags)) fds).
Proof.
  unfold sys_open. destruct path as [p |].
  - destruct (can_open p flags) eqn:E; intros H; injection H as <- <-.
    + right. exists p. auto.
    + left. auto.
  - intros H; injection H as <- <-. left. auto.
Qed.

Lemma sys_open_keeps (can_open : string -> open_flags -> bool)
  (path : option string) (flags : open_flags) (fds fds' : fd_table) (fd : Z)
  (m : nat) :
  sys_open can_open path flags fds = (fds', fd) ->
  slot fds m <> None -> slot fds' m = slot fds m.
Proof.
  intros H Hm. apply sys_open_inv in H as [[_ ->] | (p & _ & _ & _ & ->)];
    [reflexivity |].
  rewrite slot_fd_set. destruct (Nat.eqb_spec m (lowest_free fds)) as [-> | _];
    [| reflexivity].
  now rewrite lowest_free_closed in Hm.
Qed.

(** [open], [dup2] onto a standard stream, [close]: seen descriptor by
    descriptor, only the standard stream has changed. *)
Lemma open_dup2_close (d : file_desc) (newfd : nat) (fds : fd_table) :
  std_streams_open fds ->
  newfd < 2 ->
  let fd := lowest_free fds in
  forall m,
    slot (sys_close (Z.of_nat fd)
            (sys_dup2 (Z.of_nat fd) newfd (fd_set fd (Some d) fds))) m
    = if (m =? newfd)%nat then Some d else slot fds m.
Proof.
  intros Hstd Hnew fd m.
  pose proof (lowest_free_above_std fds Hstd) as Hfd. fold fd in Hfd.
  assert (D : fd_get (Z.of_nat fd) (fd_set fd (Some d) fds) = Some d).
  { now rewrite fd_get_of_nat, slot_fd_set, Nat.eqb_refl. }
  unfold sys_dup2. rewrite D.
  unfold sys_close. rewrite fd_get_of_nat, slot_fd_set.
  destruct (Nat.eqb_spec fd newfd) as [E | _]; [lia |].
  rewrite slot_fd_set, Nat.eqb_refl, Nat2Z.id.
  rewrite !slot_fd_set.
  destruct (Nat.eqb_spec m fd) as [-> | _].
  - destruct (Nat.eqb_spec fd newfd); [lia |].
    symmetry. apply lowest_free_closed.
  - reflexivity.
Qed.

(** ** What the resolver does to the descriptors *)

Lemma output_branch_effect (can_open : string -> open_flags -> bool)
  (args : arg_array) (i : nat) (l l' : redir_locals) :
  std_streams_open (r_fds l) ->
  output_branch can_open args i l = Next l' ->
  exists t,
    nth_error args (i + 1) = Some (Some t) /\
    (forall m, slot (r_fds l') m
               = if (m =? 1)%nat then Some (Opened t O_WRONLY_CREAT_TRUNC)
                 else slot (r_fds l) m) /\
    (2 <= output_file l')%Z /\
    fd_get (output_file l') (r_fds l') = None /\
    input_file l' = input_file l.
Proof.
  intros Hstd. unfold output_branch.
  destruct (nth_error args (i + 1)) as [target |]; [| discriminate].
  destruct (sys_open can_open target O_WRONLY_CREAT_TRUNC (r_fds l))
    as [fds1 fd] eqn:O.
  apply sys_open_inv in O as [[-> ->] | (t & -> & _ & -> & ->)];
    [discriminate |].
  destruct (Z.eqb_spec (Z.of_nat (lowest_free (r_fds l))) (-1)); [lia |].
  destruct (record_pair i (args_to_remove l)); [| discriminate].
  intros H. injection H as <-. cbn [r_fds output_file input_file].
  pose proof (lowest_free_above_std _ Hstd) as Hfd.
  pose proof (open_dup2_close (Opened t O_WRONLY_CREAT_TRUNC) 1 (r_fds l)
                Hstd ltac:(lia)) as E. cbv zeta in E.
  exists t. repeat split.
  - exact E.
  - lia.
  - rewrite fd_get_of_nat, E.
    destruct (Nat.eqb_spec (lowest_free (r_fds l)) 1); [lia |].
    apply lowest_free_closed.
Qed.

Lemma input_branch_effect (can_open : string -> open_flags -> bool)
  (args : arg_array) (i : nat) (l l' : redir_locals) :
  std_streams_open (r_fds l) ->
  input_branch can_open args i l = Next l' ->
  exists t,
    nth_error args (i + 1) = Some (Some t) /\
    (forall m, slot (r_fds l') m
               = if (m =? 0)%nat then Some (Opened t O_RDONLY)
                 else slot (r_fds l) m) /\
    (2 <= input_file l')%Z /\
    fd_get (input_file l') (r_fds l') = None /\
    output_file l' = output_file l.
Proof.
  intros Hstd. unfold input_branch.
  destruct (nth_error args (i + 1)) as [target |]; [| discriminate].
  destruct (sys_open can_open target O_RDONLY (r_fds l)) as [fds1 fd] eqn:O.
  apply sys_open_inv in O as [[-> ->] | (t & -> & _ & -> & ->)];
    [discriminate |].
  destruct (Z.eqb_spec (Z.of_nat (lowest_free (r_fds l))) (-1)); [lia |].
  destruct (record_pair i (args_to_remove l)); [| discriminate].
  intros H. injection H as <-. cbn [r_fds output_file input_file].
  pose proof (lowest_free_above_std _ Hstd) as Hfd.
  pose proof (open_dup2_close (Opened t O_RDONLY) 0 (r_fds l)
                Hstd ltac:(lia)) as E. cbv zeta in E.
  exists t. repeat split.
  - exact E.
  - lia.
  - rewrite fd_get_of_nat, E.
    destruct (Nat.eqb_spec (lowest_free (r_fds l)) 0); [lia |].
    apply lowest_free_closed.
Qed.

Lemma redirection_body_effect (can_open : string -> open_flags -> bool)
  (args : arg_array) (i : nat) (l l' : redir_locals) :
  std_streams_open (r_fds l) ->
  redirection_body can_open args i l = Next l' ->
  pass_effect args i l l'.
Proof.
  intros Hstd. unfold redirection_body.
  destruct (nth_error args i) as [[a |] |] eqn:A; try discriminate.
  destruct (String.eqb_spec a ">") as [-> | Hout].
  - cbn [String.eqb Ascii.eqb Bool.eqb].
    destruct (output_branch can_open args i l) as [l1 | r] eqn:B;
      [| discriminate].
    intros H. injection H as <-.
    destruct (output_branch_effect _ _ _ _ _ Hstd B) as (t & ? & ? & ? & ? & ?).
    now apply (pass_output args i l l1 t).
  - destruct (String.eqb_spec a "<") as [-> | Hin].
    + intros B.
      destruct (input_branch_effect _ _ _ _ _ Hstd B) as (t & ? & ? & ? & ? & ?).
      now apply (pass_input args i l l' t).
    + intros H. injection H as <-.
      apply pass_plain; congruence.
Qed.


Lemma pass_effect_summary (args : arg_array) (i : nat) (l l' : redir_locals) :
  std_streams_open (r_fds l) ->
  pass_effect args i l l' ->
  std_streams_open (r_fds l') /\
  (forall m, 2 <= m -> slot (r_fds l') m = slot (r_fds l) m) /\
  (nth_error args i <> Some (Some ">") ->
   output_file l' = output_file l /\ slot (r_fds l') 1 = slot (r_fds l) 1) /\
  (nth_error args i <> Some (Some "<") ->
   input_file l' = input_file l /\ slot (r_fds l') 0 = slot (r_fds l) 0).
Proof.
  intros [H0 H1] [t A T E V C K | t A T E V C K | A1 A2 ->].
  - split; [| split; [| split]].
    + split; rewrite E; simpl; congruence.
    + intros m Hm. rewrite E. destruct (Nat.eqb_spec m 1); [lia | reflexivity].
    + intros N. contradiction.
    + intros _. split; [assumption | now rewrite E].
  - split; [| split; [| split]].
    + split; rewrite E; simpl; congruence.
    + intros m Hm. rewrite E. destruct (Nat.eqb_spec m 0); [lia | reflexivity].
    + intros _. split; [assumption | now rewrite E].
    + intros N. contradiction.
  - repeat split; assumption.
Qed.

Lemma redirection_loop_effect (can_open : string -> open_flags -> bool)
  (args : arg_array) (n : nat) :
  forall i l l',
    std_streams_open (r_fds l) ->
    redirection_loop can_open args n i l = Next l' ->
    std_streams_open (r_fds l') /\
    (forall m, 2 <= m -> slot (r_fds l') m = slot (r_fds l) m) /\
    ((forall j, i <= j < i + n -> nth_error args j <> Some (Some ">")) ->
     output_file l' = output_file l /\ slot (r_fds l') 1 = slot (r_fds l) 1) /\
    ((forall j, i <= j < i + n -> nth_error args j <> Some (Some "<")) ->
     input_file l' = input_file l /\ slot (r_fds l') 0 = slot (r_fds l) 0).
Proof.
  induction n as [| n IH]; intros i l l' Hstd H.
  - injection H as <-. repeat split; auto; apply Hstd.
  - cbn [redirection_loop] in H.
    destruct (redirection_body can_open args i l) as [l1 | r] eqn:B;
      [| discriminate].
    apply redirection_body_effect in B; [| assumption].
    destruct (pass_effect_summary _ _ _ _ Hstd B) as (S1 & F1 & O1 & I1).
    destruct (IH _ _ _ S1 H) as (S2 & F2 & O2 & I2).
    split; [exact S2 |]. split; [| split].
    + intros m Hm. rewrite F2, F1 by assumption. reflexivity.
    + intros Hno.
      destruct O1 as [E1 E1']; [apply Hno; lia |].
      destruct O2 as [E2 E2']; [intros j Hj; apply Hno; lia |].
      split; congruence.
    + intros Hno.
      destruct I1 as [E1 E1']; [apply Hno; lia |].
      destruct I2 as [E2 E2']; [intros j Hj; apply Hno; lia |].
      split; congruence.
Qed.

(** The passes of the loop can be run in two stretches. *)
Lemma redirection_loop_app (can_open : string -> open_flags -> bool)
  (args : arg_array) (a b : nat) :
  forall i l,
    redirection_loop can_open args (a + b) i l
    = match redirection_loop can_open args a i l with
      | Next l' => redirection_loop can_open args b (i + a) l'
      | Stop r => Stop r
      end.
Proof.
  induction a as [| a IH]; intros i l.
  - cbn [Nat.add redirection_loop]. now rewrite Nat.add_0_r.
  - cbn [Nat.add redirection_loop].
    destruct (redirection_body can_open args i l) as [l1 | r];
      [| reflexivity].
    rewrite IH. replace (S i + a) with (i + S a) by lia. reflexivity.
Qed.

(** The table the first loop starts from. *)
Lemma dev_null_opens_keep (can_open : string -> open_flags -> bool)
  (fds0 fds1 fds2 : fd_table) (out_null in_null : Z) :
  sys_open can_open (Some "/dev/null") O_WRONLY fds0 = (fds1, out_null) ->
  sys_open can_open (Some "/dev/null") O_RDONLY fds1 = (fds2, in_null) ->
  forall m, slot fds0 m <> None -> slot fds2 m = slot fds0 m.
Proof.
  intros O1 O2 m Hm.
  pose proof (sys_open_keeps _ _ _ _ _ _ m O1 Hm) as E1.
  rewrite <- E1 in Hm.
  pose proof (sys_open_keeps _ _ _ _ _ _ m O2 Hm) as E2.
  congruence.
Qed.

Lemma dev_null_opens_std (can_open : string -> open_flags -> bool)
  (fds0 fds1 fds2 : fd_table) (out_null in_null : Z) :
  sys_open can_open (Some "/dev/null") O_WRONLY fds0 = (fds1, out_null) ->
  sys_open can_open (Some "/dev/null") O_RDONLY fds1 = (fds2, in_null) ->
  std_streams_open fds0 -> std_streams_open fds2.
Proof.
  intros O1 O2 [H0 H1]. split;
    rewrite (dev_null_opens_keep _ _ _ _ _ _ O1 O2) by assumption; assumption.
Qed.

Lemma sys_dup2_keeps_std (oldfd : Z) (newfd : nat) (fds : fd_table) :
  std_streams_open fds -> std_streams_open (sys_dup2 oldfd newfd fds).
Proof.
  intros [H0 H1]. split; rewrite sys_dup2_slot;
    destruct (fd_get oldfd fds); try assumption;
    match goal with
    | |- context [if ?c then _ else _] => destruct c
    end; congruence.
Qed.

Lemma sys_dup2_other (oldfd : Z) (newfd : nat) (fds : fd_table) (m : nat) :
  m <> newfd -> slot (sys_dup2 oldfd newfd fds) m = slot fds m.
Proof.
  intros H. rewrite sys_dup2_slot. destruct (fd_get oldfd fds); [| reflexivity].
  destruct (Nat.eqb_spec m newfd); [contradiction | reflexivity].
Qed.

Lemma sys_dup2_closed (oldfd : Z) (newfd : nat) (fds : fd_table) :
  fd_get oldfd fds = None -> sys_dup2 oldfd newfd fds = fds.
Proof. intros H. unfold sys_dup2. now rewrite H. Qed.

Lemma fd_get_slot (fd : Z) (fds : fd_table) :
  (0 <= fd)%Z -> fd_get fd fds = slot fds (Z.to_nat fd).
Proof.
  intros H. unfold fd_get, slot. destruct (Z.ltb_spec fd 0); [lia | reflexivity].
Qed.

(** The stages of a call of the resolver that returns 0. *)
Lemma redirection_stages (can_open : string -> open_flags -> bool)
  (garbage : Z) (fds0 : fd_table) (args : arg_array) (count : nat)
  (bg : Z) (fds : fd_table) (args' : arg_array) :
  redirection can_open garbage fds0 args count bg = RedirDone fds args' ->
  exists fds1 fds2 out_null in_null l,
    sys_open can_open (Some "/dev/null") O_WRONLY fds0 = (fds1, out_null) /\
    sys_open can_open (Some "/dev/null") O_RDONLY fds1 = (fds2, in_null) /\
    redirection_loop can_open args (count - 1) 0
      {| r_fds := fds2; output_file := (-5)%Z; input_file := garbage;
         args_to_remove := [] |} = Next l /\
    fds = redirection_tail l out_null in_null bg.
Proof.
  unfold redirection.
  destruct (sys_open can_open (Some "/dev/null") O_WRONLY fds0)
    as [fds1 out_null] eqn:O1.
  destruct (sys_open can_open (Some "/dev/null") O_RDONLY fds1)
    as [fds2 in_null] eqn:O2.
  match goal with
  | |- context [redirection_loop ?c ?a ?n ?i ?l] =>
      destruct (redirection_loop c a n i l) as [l' | r] eqn:L
  end.
  - intros H. injection H as <- _.
    exists fds1, fds2, out_null, in_null, l'.
    split; [first [reflexivity | exact O1] |].
    split; [first [reflexivity | exact O2] |].
    split; [exact L | reflexivity].
  - intros ->. apply redirection_loop_stop in L. contradiction.
Qed.

Lemma last_output_target_on_stdout
  (can_open : string -> open_flags -> bool) (garbage : Z) (fds0 : fd_table)
  (args : arg_array) (count : nat) (bg : Z)
  (fds : fd_table) (args' : arg_array) (j : nat) (t : string) :
  std_streams_open fds0 ->
  redirection can_open garbage fds0 args count bg = RedirDone fds args' ->
  j + 1 < count ->
  nth_error args j = Some (Some ">") ->
  nth_error args (j + 1) = Some (Some t) ->
  (forall j', j < j' < count - 1 -> nth_error args j' <> Some (Some ">")) ->
  fd_get 1 fds = Some (Opened t O_WRONLY_CREAT_TRUNC).
Proof.
  intros Hstd R Hj A T Hlast.
  apply redirection_stages in R
    as (fds1 & fds2 & out_null & in_null & l & O1 & O2 & L & ->).
  unfold redirection_tail.
  pose proof (dev_null_opens_std _ _ _ _ _ _ O1 O2 Hstd) as Hstd2.
  replace (count - 1) with (j + S (count - 2 - j)) in L by lia.
  rewrite redirection_loop_app in L.
  match type of L with
  | match ?x with _ => _ end = _ => destruct x as [l1 | r] eqn:L1
  end; [| discriminate].
  apply redirection_loop_effect in L1 as (Hstd1 & _); [| exact Hstd2].
  cbn [redirection_loop Nat.add] in L.
  destruct (redirection_body can_open args j l1) as [l2 | r] eqn:B;
    [| discriminate].
  apply redirection_body_effect in B; [| assumption].
  pose proof (pass_effect_summary _ _ _ _ Hstd1 B) as (Hstd2' & _).
  destruct B as [t' A' T' E V C K | t' A' T' E V C K | A1 A2 ->];
    try congruence.
  assert (t' = t) by congruence. subst t'.
  destruct (redirection_loop_effect _ _ _ _ _ _ Hstd2' L)
    as (_ & F & Keep & _).
  destruct Keep as [Eo E1]; [intros j' Hj'; apply Hlast; lia |].
  assert (Closed : fd_get (output_file l) (r_fds l) = None).
  { rewrite Eo. rewrite fd_get_slot in C |- * by lia.
    rewrite F by lia. exact C. }
  destruct (Z.eqb_spec (output_file l) (-5)) as [E5 | _]; [lia |].
  cbv zeta. cbn [andb]. rewrite (sys_dup2_closed _ _ _ Closed).
  assert (S1 : slot (r_fds l) 1 = Some (Opened t O_WRONLY_CREAT_TRUNC)).
  { rewrite E1, E. reflexivity. }
  change (fd_get 1) with (fd_get (Z.of_nat 1)). rewrite fd_get_of_nat.
  destruct ((input_file l =? -5)%Z && (bg =? 1)%Z)%bool;
    destruct (input_file l =? -5)%Z;
    rewrite ?sys_dup2_other by lia; exact S1.
Qed.

(** X7.  Of several [>] on a line the last one decides: when the resolver
    returns 0, standard output is the file named after the last [>] that
    has a token behind it, opened write-only with creation and
    truncation. *)
Theorem stdout_is_last_output_target
  (can_open : string -> open_flags -> bool) (garbage : Z) (fds0 : fd_table)
  (args : arg_array) (count : nat) (bg : Z)
  (fds : fd_table) (args' : arg_array) (j : nat) (t : string) :
  std_streams_open fds0 ->
  redirection can_open garbage fds0 args count bg = RedirDone fds args' ->
  j + 1 < count ->
  nth_error args j = Some (Some ">") ->
  nth_error args (j + 1) = Some (Some t) ->
  (forall j', j < j' < count - 1 -> nth_error args j' <> Some (Some ">")) ->
  fd_get 1 fds = Some (Opened t O_WRONLY_CREAT_TRUNC).
Proof.
  intros Hstd. intros.
  eapply last_output_target_on_stdout; eassumption.
Qed.

Lemma stdout_is_last_output_target_witness :
  fd_get 1
    [Some (Inherited 0); Some (Opened "b" O_WRONLY_CREAT_TRUNC);
     Some (Inherited 2); Some (Opened "/dev/null" O_WRONLY);
     Some (Opened "/dev/null" O_RDONLY); None]
  = Some (Opened "b" O_WRONLY_CREAT_TRUNC).
Proof.
  apply (stdout_is_last_output_target (fun _ _ => true) (-5)%Z standard_fds
           (args_of_tokens ["ls"; ">"; "a"; ">"; "b"]) 5 0%Z
           _ (args_of_tokens ["ls"]
                ++ [None; None; None; None])%list 3 "b");
    try reflexivity.
  - split; discriminate.
  - lia.
  - intros j' Hj'. lia.
Defined.

Lemma default_standard_output
  (can_open : string -> open_flags -> bool) (garbage : Z) (fds0 : fd_table)
  (args : arg_array) (count : nat) (bg : Z)
  (fds : fd_table) (args' : arg_array) :
  std_streams_open fds0 ->
  can_open "/dev/null" O_WRONLY = true ->
  redirection can_open garbage fds0 args count bg = RedirDone fds args' ->
  (forall j, j < count - 1 -> nth_error args j <> Some (Some ">")) ->
  fd_get 1 fds = if (bg =? 1)%Z then Some (Opened "/dev/null" O_WRONLY)
                 else fd_get 1 fds0.
Proof.
  intros Hstd Hnull R Hno.
  apply redirection_stages in R
    as (fds1 & fds2 & out_null & in_null & l & O1 & O2 & L & ->).
  unfold redirection_tail.
  pose proof (dev_null_opens_std _ _ _ _ _ _ O1 O2 Hstd) as Hstd2.
  pose proof (dev_null_opens_keep _ _ _ _ _ _ O1 O2) as Keep.
  pose proof (lowest_free_above_std _ Hstd) as Hlow.
  (* the first descriptor of /dev/null *)
  pose proof O1 as O1'.
  apply sys_open_inv in O1' as [[Eo _] | (p & Hp & _ & -> & ->)].
  { unfold sys_open in O1. rewrite Hnull in O1. injection O1 as _ O1. lia. }
  injection Hp as <-.
  assert (N2 : slot fds2 (lowest_free fds0)
               = Some (Opened "/dev/null" O_WRONLY)).
  { rewrite (sys_open_keeps _ _ _ _ _ _ (lowest_free fds0) O2);
      rewrite slot_fd_set, Nat.eqb_refl; [reflexivity | discriminate]. }
  apply redirection_loop_effect in L as (Hstd3 & F & KeepOut & _);
    [| exact Hstd2].
  destruct KeepOut as [Eo E1]; [intros j Hj; apply Hno; lia |].
  cbn [output_file r_fds] in Eo, E1, F. rewrite Eo.
  change ((-5 =? -5)%Z) with true. cbv zeta. cbn [andb].
  set (fds4 := if (input_file l =? -5)%Z then r_fds l
               else sys_dup2 (input_file l) 0 (r_fds l)).
  assert (S4 : forall m, m <> 0 -> slot fds4 m = slot (r_fds l) m).
  { intros m Hm. unfold fds4. destruct (input_file l =? -5)%Z;
      [reflexivity | now apply sys_dup2_other]. }
  change (fd_get 1) with (fd_get (Z.of_nat 1)). rewrite !fd_get_of_nat.
  destruct (bg =? 1)%Z.
  - assert (G : fd_get (Z.of_nat (lowest_free fds0)) fds4
                = Some (Opened "/dev/null" O_WRONLY)).
    { rewrite fd_get_of_nat, S4, F by lia. exact N2. }
    assert (S5 : slot (sys_dup2 (Z.of_nat (lowest_free fds0)) 1 fds4) 1
                 = Some (Opened "/dev/null" O_WRONLY)).
    { rewrite sys_dup2_slot, G. reflexivity. }
    destruct (input_file l =? -5)%Z; cbn [andb];
      rewrite ?sys_dup2_other by lia; exact S5.
  - rewrite andb_false_r. rewrite S4 by lia. rewrite E1.
    apply Keep. apply Hstd.
Qed.



Lemma last_input_target_on_stdin
  (can_open : string -> open_flags -> bool) (garbage : Z) (fds0 : fd_table)
  (args : arg_array) (count : nat) (bg : Z)
  (fds : fd_table) (args' : arg_array) (j : nat) (t : string) :
  std_streams_open fds0 ->
  redirection can_open garbage fds0 args count bg = RedirDone fds args' ->
  j + 1 < count ->
  nth_error args j = Some (Some "<") ->
  nth_error args (j + 1) = Some (Some t) ->
  (forall j', j < j' < count - 1 -> nth_error args j' <> Some (Some "<")) ->
  fd_get 0 fds = Some (Opened t O_RDONLY).
Proof.
  intros Hstd R Hj A T Hlast.
  apply redirection_stages in R
    as (fds1 & fds2 & out_null & in_null & l & O1 & O2 & L & ->).
  unfold redirection_tail.
  pose proof (dev_null_opens_std _ _ _ _ _ _ O1 O2 Hstd) as Hstd2.
  replace (count - 1) with (j + S (count - 2 - j)) in L by lia.
  rewrite redirection_loop_app in L.
  match type of L with
  | match ?x with _ => _ end = _ => destruct x as [l1 | r] eqn:L1
  end; [| discriminate].
  apply redirection_loop_effect in L1 as (Hstd1 & _); [| exact Hstd2].
  cbn [redirection_loop Nat.add] in L.
  destruct (redirection_body can_open args j l1) as [l2 | r] eqn:B;
    [| discriminate].
  apply redirection_body_effect in B; [| assumption].
  pose proof (pass_effect_summary _ _ _ _ Hstd1 B) as (Hstd2' & _).
  destruct B as [t' A' T' E V C K | t' A' T' E V C K | A1 A2 ->];
    try congruence.
  assert (t' = t) by congruence. subst t'.
  destruct (redirection_loop_effect _ _ _ _ _ _ Hstd2' L)
    as (_ & F & _ & Keep).
  destruct Keep as [Ei E0]; [intros j' Hj'; apply Hlast; lia |].
  assert (S0 : slot (r_fds l) 0 = Some (Opened t O_RDONLY)).
  { rewrite E0, E. reflexivity. }
  assert (Hin : (2 <= input_file l)%Z) by lia.
  assert (Closed : slot (r_fds l) (Z.to_nat (input_file l)) = None).
  { rewrite Ei. rewrite fd_get_slot in C by lia. rewrite F by lia. exact C. }
  destruct (Z.eqb_spec (input_file l) (-5)) as [E5 | _]; [lia |].
  cbv zeta. cbn [andb].
  set (fds3 := if (output_file l =? -5)%Z then r_fds l
               else sys_dup2 (output_file l) 1 (r_fds l)).
  assert (S3 : forall m, m <> 1 -> slot fds3 m = slot (r_fds l) m).
  { intros m Hm. unfold fds3. destruct (output_file l =? -5)%Z;
      [reflexivity | now apply sys_dup2_other]. }
  assert (Closed3 : fd_get (input_file l) fds3 = None).
  { rewrite fd_get_slot by lia. rewrite S3 by lia. exact Closed. }
  rewrite (sys_dup2_closed _ _ _ Closed3).
  change (fd_get 0) with (fd_get (Z.of_nat 0)). rewrite fd_get_of_nat.
  destruct ((output_file l =? -5)%Z && (bg =? 1)%Z)%bool;
    rewrite ?sys_dup2_other by lia; rewrite S3 by lia; exact S0.
Qed.

(** X9.  Of several [<] the last one decides too, and once a [<] has
    been resolved the uninitialised variable plays no part: standard
    input is the file named after the last [<], opened read-only, in the
    foreground and in the background alike. *)
Theorem stdin_is_last_input_target
  (can_open : string -> open_flags -> bool) (garbage : Z) (fds0 : fd_table)
  (args : arg_array) (count : nat) (bg : Z)
  (fds : fd_table) (args' : arg_array) (j : nat) (t : string) :
  std_streams_open fds0 ->
  redirection can_open garbage fds0 args count bg = RedirDone fds args' ->
  j + 1 < count ->
  nth_error args j = Some (Some "<") ->
  nth_error args (j + 1) = Some (Some t) ->
  (forall j', j < j' < count - 1 -> nth_error args j' <> Some (Some "<")) ->
  fd_get 0 fds = Some (Opened t O_RDONLY).
Proof.
  intros Hstd. intros.
  eapply last_input_target_on_stdin; eassumption.
Qed.

Lemma stdin_is_last_input_target_witness :
  fd_get 0
    [Some (Opened "b" O_RDONLY); Some (Opened "/dev/null" O_WRONLY);
     Some (Inherited 2); Some (Opened "/dev/null" O_WRONLY);
     Some (Opened "/dev/null" O_RDONLY); None]
  = Some (Opened "b" O_RDONLY).
Proof.
  apply (stdin_is_last_input_target (fun _ _ => true) 4%Z standard_fds
           (args_of_tokens ["wc"; "<"; "a"; "<"; "b"]) 5 1%Z
           _ (args_of_tokens ["wc"]
                ++ [None; None; None; None])%list 3 "b");
    try reflexivity.
  - split; discriminate.
  - lia.
  - intros j' Hj'. lia.
Defined.

(** The four [dup2] at the end re-attach descriptors 0 and 1 at most. *)
Lemma redirection_tail_other (l : redir_locals) (out_null in_null bg : Z)
  (m : nat) :
  2 <= m ->
  slot (redirection_tail l out_null in_null bg) m = slot (r_fds l) m.
Proof.
  intros Hm. unfold redirection_tail. cbv zeta.
  repeat match goal with
         | |- slot (if ?c then _ else _) _ = _ => destruct c
         | |- slot (sys_dup2 _ _ _) _ = _ => rewrite sys_dup2_other by lia
         end; reflexivity.
Qed.

Lemma redirection_tail_std (l : redir_locals) (out_null in_null bg : Z) :
  std_streams_open (r_fds l) ->
  std_streams_open (redirection_tail l out_null in_null bg).
Proof.
  intros H. unfold redirection_tail. cbv zeta.
  repeat match goal with
         | |- std_streams_open (if ?c then _ else _) => destruct c
         | |- std_streams_open (sys_dup2 _ _ _) => apply sys_dup2_keeps_std
         end; exact H.
Qed.

(** X10.  The resolver touches descriptors 0 and 1 only: when it returns
    0, both are open, and every descriptor from 2 upwards that was open at
    the start - standard error among them - is attached to what it was
    attached to. *)
Theorem redirection_keeps_other_descriptors
  (can_open : string -> open_flags -> bool) (garbage : Z) (fds0 : fd_table)
  (args : arg_array) (count : nat) (bg : Z)
  (fds : fd_table) (args' : arg_array) :
  std_streams_open fds0 ->
  redirection can_open garbage fds0 args count bg = RedirDone fds args' ->
  std_streams_open fds /\
  forall m, 2 <= m -> slot fds0 m <> None -> slot fds m = slot fds0 m.
Proof.
  intros Hstd R.
  apply redirection_stages in R
    as (fds1 & fds2 & out_null & in_null & l & O1 & O2 & L & ->).
  pose proof (dev_null_opens_std _ _ _ _ _ _ O1 O2 Hstd) as Hstd2.
  pose proof (dev_null_opens_keep _ _ _ _ _ _ O1 O2) as Keep.
  apply redirection_loop_effect in L as (Hstd3 & F & _ & _); [| exact Hstd2].
  cbn [r_fds] in F. split.
  - now apply redirection_tail_std.
  - intros m Hm Hopen.
    rewrite redirection_tail_other, F, Keep by assumption. reflexivity.
Qed.

Lemma redirection_keeps_other_descriptors_witness :
  std_streams_open
    [Some (Opened "in" O_RDONLY); Some (Opened "out" O_WRONLY_CREAT_TRUNC);
     Some (Inherited 2); Some (Opened "/dev/null" O_WRONLY);
     Some (Opened "/dev/null" O_RDONLY); None] /\
  forall m, 2 <= m -> slot standard_fds m <> None ->
            slot
              [Some (Opened "in" O_RDONLY);
               Some (Opened "out" O_WRONLY_CREAT_TRUNC);
               Some (Inherited 2); Some (Opened "/dev/null" O_WRONLY);
               Some (Opened "/dev/null" O_RDONLY); None] m
            = slot standard_fds m.
Proof.
  apply (redirection_keeps_other_descriptors (fun _ _ => true) 7%Z
           standard_fds
           (args_of_tokens ["sort"; "<"; "in"; ">"; "out"]) 5 0%Z
           _ (args_of_tokens ["sort"] ++ [None; None; None; None])%list).
  - split; discriminate.
  - reflexivity.
Defined.





(** ** Failures in the child *)

(** X12.  When the first operator of a command names a file that cannot
    be opened, the child prints the message that names this file and
    exits with status 1: [execvp] is not called and nothing of the line
    is executed. *)
Theorem unopenable_target_ends_child
  (k : kernel) (args : arg_array) (count : nat) (bg : Z)
  (j : nat) (op t : string) :
  (forall i, i < j -> exists a, nth_error args i = Some (Some a) /\
                                is_operator a = false) ->
  j + 1 < count ->
  nth_error args j = Some (Some op) ->
  is_operator op = true ->
  nth_error args (j + 1) = Some (Some t) ->
  k_can_open k t (flags_of_operator op) = false ->
  run_fork_child k args count bg
  = RedirectionFails
      [Out ("bash: " ++ t ++ ": No such file or directory" ++ nl)] 1%Z.
Proof.
  intros Hplain Hj A O T Hfail.
  unfold run_fork_child, redirection.
  destruct (sys_open (k_can_open k) (Some "/dev/null") O_WRONLY (k_fds k))
    as [fds1 out_null].
  destruct (sys_open (k_can_open k) (Some "/dev/null") O_RDONLY fds1)
    as [fds2 in_null].
  replace (count - 1) with (j + S (count - 2 - j)) by lia.
  rewrite redirection_loop_app, redirection_loop_plain
    by (intros i Hi; apply Hplain; lia).
  cbn [redirection_loop Nat.add]. unfold redirection_body. rewrite A.
  unfold is_operator in O. unfold flags_of_operator in Hfail.
  destruct (String.eqb_spec op ">") as [-> | Hout].
  - unfold output_branch. rewrite T. unfold sys_open. rewrite Hfail.
    reflexivity.
  - cbn [orb] in O. rewrite O.
    unfold input_branch. rewrite T. unfold sys_open. rewrite Hfail.
    reflexivity.
Qed.

Lemma unopenable_target_ends_child_witness :
  run_fork_child missing_file_kernel
    (args_of_tokens ["sort"; "-r"; "<"; "nosuchfile"]) 4 0%Z
  = RedirectionFails
      [Out ("bash: nosuchfile: No such file or directory" ++ nl)] 1%Z.
Proof.
  apply (unopenable_target_ends_child missing_file_kernel
           (args_of_tokens ["sort"; "-r"; "<"; "nosuchfile"]) 4 0%Z
           2 "<" "nosuchfile"); try reflexivity.
  - intros [| [| i]] Hi; [exists "sort" | exists "-r" | lia]; split; reflexivity.
  - lia.
Defined.

Lemma args_of_tokens_plain (tokens : list string) (j : nat) :
  Forall (fun t => is_operator t = false) tokens ->
  j < List.length tokens ->
  exists a, nth_error (args_of_tokens tokens) j = Some (Some a) /\
            is_operator a = false.
Proof.
  intros Hplain Hj.
  destruct (nth_error tokens j) as [a |] eqn:A;
    [| apply nth_error_None in A; lia].
  exists a. split; [now apply args_of_tokens_slot |].
  rewrite Forall_forall in Hplain. apply Hplain.
  eapply nth_error_In; eassumption.
Qed.

(** X13.  A command made of plain words whose program cannot be
    executed ends in the child: the redirections are resolved, [execvp] is
    tried with the whole command as argument vector, and when it fails
    the child reports [command not found] on standard error and exits
    with status 1. *)
Theorem missing_program_ends_child
  (k : kernel) (st : shell_state) (cmd : string) (words : list string) :
  k_fork k = 0%Z ->
  Forall (fun t => is_operator t = false) (cmd :: words) ->
  last (cmd :: words) "" <> "&" ->
  k_can_exec k cmd = false ->
  run_fork k st (args_of_tokens (cmd :: words)) (List.length (cmd :: words))
  = InChild
      (ExecFails cmd (cmd :: words)
         [Err ("bash: " ++ cmd ++ ": command not found" ++ nl)] 1%Z).
Proof.
  intros Hfork Hplain Hlast Hexec.
  set (tokens := cmd :: words) in *.
  assert (Hs : strip_background st (args_of_tokens tokens)
                 (List.length tokens)
               = Some (args_of_tokens tokens, List.length tokens, 0%Z)).
  { assert (Hne : tokens <> []) by discriminate.
    destruct (exists_last Hne) as (front & t & E). rewrite E in Hlast |- *.
    rewrite last_last in Hlast. unfold strip_background.
    replace (List.length (front ++ [t])) with (S (List.length front))
      by (rewrite length_app; simpl; lia).
    rewrite nth_error_last_token.
    destruct (String.eqb_spec t "&"); [contradiction | reflexivity]. }
  unfold run_fork. rewrite Hs, Hfork. cbn [Z.eqb].
  unfold run_fork_child, redirection.
  destruct (sys_open (k_can_open k) (Some "/dev/null") O_WRONLY (k_fds k))
    as [fds1 out_null].
  destruct (sys_open (k_can_open k) (Some "/dev/null") O_RDONLY fds1)
    as [fds2 in_null].
  rewrite redirection_loop_plain
    by (intros j Hj; apply args_of_tokens_plain; [assumption | lia]).
  cbn [args_to_remove remove_args fold_left].
  unfold args_of_tokens at 1 2 3. rewrite argv_of_tokens.
  cbn [tokens map app nth_error]. rewrite Hexec. reflexivity.
Qed.

Lemma missing_program_ends_child_witness :
  run_fork missing_file_kernel initial_state
    (args_of_tokens ["badprog"; "-x"]) 2
  = InChild
      (ExecFails "badprog" ["badprog"; "-x"]
         [Err ("bash: badprog: command not found" ++ nl)] 1%Z).
Proof.
  apply (missing_program_ends_child missing_file_kernel initial_state
           "badprog" ["-x"]); try reflexivity.
  - repeat constructor.
  - discriminate.
Defined.


(** ** The wait status the shell stores *)

Lemma status_word_exit (code : Z) :
  (0 <= code <= 255)%Z ->
  WTERMSIG (code * 256) = 0%Z /\ WEXITSTATUS (code * 256) = code /\
  WIFSIGNALED (code * 256) = false.
Proof.
  intros H. unfold WIFSIGNALED, WEXITSTATUS, WTERMSIG.
  assert (T : Z.land (code * 256) 127 = 0%Z).
  { change 127%Z with (Z.ones 7). rewrite Z.land_ones by lia.
    change (2 ^ 7)%Z with 128%Z.
    replace (code * 256)%Z with (code * 2 * 128)%Z by lia.
    apply Z.mod_mul. lia. }
  rewrite T. repeat split.
  change 65280%Z with (Z.shiftl 255 8).
  replace (code * 256)%Z with (Z.shiftl code 8)
    by (rewrite Z.shiftl_mul_pow2 by lia; reflexivity).
  rewrite <- Z.shiftl_land, Z.shiftr_shiftl_l, Z.sub_diag by lia.
  cbn [Z.shiftl]. change 255%Z with (Z.ones 8). rewrite Z.land_ones by lia.
  apply Z.mod_small. change (2 ^ 8)%Z with 256%Z. lia.
Qed.

Lemma strip_background_plain (st : shell_state) (tokens : list string) :
  tokens <> [] ->
  last tokens "" <> "&" ->
  strip_background st (args_of_tokens tokens) (List.length tokens)
  = Some (args_of_tokens tokens, List.length tokens, 0%Z).
Proof.
  intros Hne Hlast.
  destruct (exists_last Hne) as (front & t & ->).
  rewrite last_last in Hlast. unfold strip_background.
  replace (List.length (front ++ [t])) with (S (List.length front))
    by (rewrite length_app; simpl; lia).
  rewrite nth_error_last_token.
  destruct (String.eqb_spec t "&"); [contradiction | reflexivity].
Qed.

Lemma strip_background_marker (st : shell_state) (tokens : list string) :
  strip_background st (args_of_tokens (tokens ++ ["&"]))
    (List.length (tokens ++ ["&"]))
  = Some ((map Some tokens ++ [None; None])%list, List.length tokens,
          if (z_mode st =? 0)%Z then 1%Z else 0%Z).
Proof.
  unfold strip_background.
  replace (List.length (tokens ++ ["&"])) with (S (List.length tokens))
    by (rewrite length_app; simpl; lia).
  rewrite nth_error_last_token. cbn [String.eqb Ascii.eqb Bool.eqb].
  now rewrite args_of_tokens_background.
Qed.

(** ** The launcher, in the parent *)

Lemma int_incr_in_range (x : Z) :
  (INT_MIN <= x < INT_MAX)%Z -> int_incr x = (x + 1)%Z.
Proof.
  unfold INT_MIN, INT_MAX, int_incr, wrap_int. intros H.
  rewrite Z.mod_small by lia. lia.
Qed.

Lemma int_incr_at_max : int_incr INT_MAX = INT_MIN.
Proof. reflexivity. Qed.

(** X14.  Outside foreground-only mode a command that ends in [&] is
    launched without waiting: the shell prints the pid of the child,
    increments the count of background children as a C [int] - by one
    below [INT_MAX], around to [INT_MIN] at [INT_MAX] - and keeps the
    stored status of the last foreground command. *)
Theorem background_launch
  (k : kernel) (st : shell_state) (tokens : list string) :
  z_mode st = 0%Z ->
  (0 < k_fork k)%Z ->
  run_fork k st (args_of_tokens (tokens ++ ["&"]))
    (List.length (tokens ++ ["&"]))
  = InParent
      (ShellContinues
         {| current_foreground_pid := current_foreground_pid st;
            exit_method := exit_method st;
            z_mode := 0%Z;
            num_background_process :=
              int_incr (num_background_process st) |}
         [Out ("Background pid is " ++ dec (k_fork k) ++ nl)]) /\
  ((INT_MIN <= num_background_process st < INT_MAX)%Z ->
   int_incr (num_background_process st)
   = (num_background_process st + 1)%Z) /\
  (num_background_process st = INT_MAX ->
   int_incr (num_background_process st) = INT_MIN).
Proof.
  intros Hz Hfork. split; [| split].
  - unfold run_fork.
    rewrite strip_background_marker, Hz. cbn [Z.eqb].
    destruct (Z.eqb_spec (k_fork k) (-1)); [lia |].
    destruct (Z.eqb_spec (k_fork k) 0); [lia |].
    unfold run_fork_parent, set_num_background_process. cbn [Z.eqb].
    rewrite Hz. reflexivity.
  - apply int_incr_in_range.
  - intros ->. apply int_incr_at_max.
Qed.

Lemma background_launch_witness :
  run_fork parent_kernel initial_state
    (args_of_tokens ["sleep"; "5"; "&"]) 3
  = InParent
      (ShellContinues
         {| current_foreground_pid := (-5)%Z; exit_method := (-5)%Z;
            z_mode := 0%Z; num_background_process := int_incr 0 |}
         [Out ("Background pid is 700" ++ nl)]) /\
  ((INT_MIN <= 0 < INT_MAX)%Z -> int_incr 0 = (0 + 1)%Z) /\
  (0%Z = INT_MAX -> int_incr 0 = INT_MIN).
Proof.
  apply (background_launch parent_kernel initial_state ["sleep"; "5"]);
    reflexivity.
Defined.

(** X15.  A foreground command is waited for, and [status] then reports
    how it ended: after a child that exited with code [c] nothing is
    printed at completion and [status] prints [exit value c]. *)
Theorem foreground_exit_then_status
  (k : kernel) (st : shell_state) (tokens : list string) (code : Z) :
  tokens <> [] ->
  last tokens "" <> "&" ->
  (0 < k_fork k)%Z ->
  k_wait k = mkReply (k_fork k) (code * 256) ->
  (0 <= code <= 255)%Z ->
  let st' := {| current_foreground_pid := k_fork k;
                exit_method := (code * 256)%Z;
                z_mode := z_mode st;
                num_background_process := num_background_process st |} in
  run_fork k st (args_of_tokens tokens) (List.length tokens)
  = InParent (ShellContinues st' [WaitFor (k_fork k) 0%Z]) /\
  status_command st' = [Out ("exit value " ++ dec code ++ nl)].
Proof.
  intros Hne Hlast Hfork Hwait Hcode st'.
  destruct (status_word_exit code Hcode) as (T & E & S).
  split.
  - unfold run_fork. rewrite strip_background_plain by assumption.
    destruct (Z.eqb_spec (k_fork k) (-1)); [lia |].
    destruct (Z.eqb_spec (k_fork k) 0); [lia |].
    unfold run_fork_parent. cbn [Z.eqb].
    unfold waitpid_store. rewrite Hwait. cbn [w_ret w_status].
    destruct (Z.ltb_spec 0 (k_fork k)); [| lia].
    unfold check_termination, set_exit_method, set_current_foreground_pid.
    cbn [exit_method current_foreground_pid z_mode num_background_process].
    rewrite S. reflexivity.
  - unfold status_command, st'. cbn [exit_method].
    rewrite status_line_exited by assumption. now rewrite E.
Qed.

Lemma foreground_exit_then_status_witness :
  run_fork parent_kernel initial_state (args_of_tokens ["false"]) 1
  = InParent
      (ShellContinues
         {| current_foreground_pid := 700%Z; exit_method := 768%Z;
            z_mode := 0%Z; num_background_process := 0%Z |}
         [WaitFor 700%Z 0%Z]) /\
  status_command
    {| current_foreground_pid := 700%Z; exit_method := 768%Z;
       z_mode := 0%Z; num_background_process := 0%Z |}
  = [Out ("exit value 3" ++ nl)].
Proof.
  apply (foreground_exit_then_status parent_kernel initial_state
           ["false"] 3); try reflexivity; try discriminate.
  lia.
Defined.

Lemma status_word_signaled (word sig : Z) :
  WTERMSIG word = sig ->
  (1 <= sig <= 126)%Z ->
  WIFSIGNALED word = true.
Proof.
  unfold WIFSIGNALED, WTERMSIG. intros -> H.
  unfold signed_char. rewrite Z.mod_small by lia.
  destruct (Z.ltb_spec (sig + 1) 128); [| lia].
  apply Z.ltb_lt. rewrite Z.shiftr_div_pow2 by lia.
  change (2 ^ 1)%Z with 2%Z.
  assert (1 <= (sig + 1) / 2)%Z by (apply Z.div_le_lower_bound; lia).
  lia.
Qed.

(** X16.  After a foreground child killed by signal [s] - whatever else
    the status word carries, such as the core-dump flag - the shell
    stores the word, prints [terminated by signal s] at once, and
    [status] prints the same line. *)
Theorem foreground_signal_then_status
  (k : kernel) (st : shell_state) (tokens : list string) (word sig : Z) :
  tokens <> [] ->
  last tokens "" <> "&" ->
  (0 < k_fork k)%Z ->
  k_wait k = mkReply (k_fork k) word ->
  WTERMSIG word = sig ->
  (1 <= sig <= 126)%Z ->
  let st' := {| current_foreground_pid := k_fork k;
                exit_method := word;
                z_mode := z_mode st;
                num_background_process := num_background_process st |} in
  run_fork k st (args_of_tokens tokens) (List.length tokens)
  = InParent
      (ShellContinues st'
         [WaitFor (k_fork k) 0%Z;
          Out ("terminated by signal " ++ dec sig ++ nl)]) /\
  status_command st' = [Out ("terminated by signal " ++ dec sig ++ nl)].
Proof.
  intros Hne Hlast Hfork Hwait T Hsig st'.
  pose proof (status_word_signaled word sig T Hsig) as S.
  split.
  - unfold run_fork. rewrite strip_background_plain by assumption.
    destruct (Z.eqb_spec (k_fork k) (-1)); [lia |].
    destruct (Z.eqb_spec (k_fork k) 0); [lia |].
    unfold run_fork_parent. cbn [Z.eqb].
    unfold waitpid_store. rewrite Hwait. cbn [w_ret w_status].
    destruct (Z.ltb_spec 0 (k_fork k)); [| lia].
    unfold check_termination, set_exit_method, set_current_foreground_pid.
    cbn [exit_method current_foreground_pid z_mode num_background_process].
    rewrite S, T. reflexivity.
  - unfold status_command, st'. cbn [exit_method].
    rewrite status_line_signaled by lia. now rewrite T.
Qed.

Lemma foreground_signal_then_status_witness :
  run_fork core_dump_kernel initial_state (args_of_tokens ["./crash"]) 1
  = InParent
      (ShellContinues
         {| current_foreground_pid := 700%Z; exit_method := 139%Z;
            z_mode := 0%Z; num_background_process := 0%Z |}
         [WaitFor 700%Z 0%Z; Out ("terminated by signal 11" ++ nl)]) /\
  status_command
    {| current_foreground_pid := 700%Z; exit_method := 139%Z;
       z_mode := 0%Z; num_background_process := 0%Z |}
  = [Out ("terminated by signal 11" ++ nl)].
Proof.
  apply (foreground_signal_then_status core_dump_kernel initial_state
           ["./crash"] 139 11); try reflexivity; try discriminate.
  lia.
Defined.

(** X17.  When [fork] fails the shell itself ends: whatever the command,
    it reports the failure and exits with status 1, waiting for nobody
    and launching nothing. *)
Theorem fork_failure_ends_shell
  (k : kernel) (st : shell_state) (tokens : list string) :
  tokens <> [] ->
  k_fork k = (-1)%Z ->
  run_fork k st (args_of_tokens tokens) (List.length tokens)
  = InParent (ShellExits 1%Z [Perror "fork() failed!"]).
Proof.
  intros Hne Hfork. unfold run_fork.
  destruct (exists_last Hne) as (front & t & ->).
  unfold strip_background.
  replace (List.length (front ++ [t])) with (S (List.length front))
    by (rewrite length_app; simpl; lia).
  rewrite nth_error_last_token, Hfork.
  destruct (t =? "&"); reflexivity.
Qed.

Lemma fork_failure_ends_shell_witness :
  run_fork no_fork_kernel initial_state (args_of_tokens ["ls"; "&"]) 2
  = InParent (ShellExits 1%Z [Perror "fork() failed!"]).
Proof.
  apply (fork_failure_ends_shell no_fork_kernel initial_state ["ls"; "&"]).
  - discriminate.
  - reflexivity.
Defined.

(** ** The launcher, in the child *)

Lemma redirection_plain (can_open : string -> open_flags -> bool)
  (garbage : Z) (fds0 : fd_table) (tokens : list string) (bg : Z) :
  Forall (fun t => is_operator t = false) tokens ->
  exists fds,
    redirection can_open garbage fds0 (args_of_tokens tokens)
      (List.length tokens) bg
    = RedirDone fds (args_of_tokens tokens).
Proof.
  intros Hplain. unfold redirection.
  destruct (sys_open can_open (Some "/dev/null") O_WRONLY fds0)
    as [fds1 out_null].
  destruct (sys_open can_open (Some "/dev/null") O_RDONLY fds1)
    as [fds2 in_null].
  rewrite redirection_loop_plain
    by (intros j Hj; apply args_of_tokens_plain; [assumption | lia]).
  cbn [args_to_remove remove_args fold_left]. eexists. reflexivity.
Qed.

(** X18.  The child of a background command is executed with the words
    before the [&] as argument vector, with the interrupt signal still
    ignored, and with standard output on [/dev/null]. *)
Theorem background_child
  (k : kernel) (st : shell_state) (cmd : string) (words : list string) :
  z_mode st = 0%Z ->
  k_fork k = 0%Z ->
  std_streams_open (k_fds k) ->
  k_can_open k "/dev/null" O_WRONLY = true ->
  k_can_exec k cmd = true ->
  Forall (fun t => is_operator t = false) (cmd :: words) ->
  exists fds,
    run_fork k st (args_of_tokens ((cmd :: words) ++ ["&"]))
      (List.length ((cmd :: words) ++ ["&"]))
    = InChild (Executes cmd (cmd :: words) fds false) /\
    fd_get 1 fds = Some (Opened "/dev/null" O_WRONLY).
Proof.
  intros Hz Hfork Hstd Hnull Hexec Hplain.
  destruct (redirection_plain (k_can_open k) (k_garbage k) (k_fds k)
              (cmd :: words) 1%Z Hplain) as [fds R].
  exists fds. split.
  - unfold run_fork. rewrite strip_background_marker, Hz, Hfork.
    cbn [Z.eqb]. f_equal.
    rewrite <- (length_map Some (cmd :: words)).
    rewrite (run_fork_child_terminated k (map Some (cmd :: words)) [None]).
    rewrite length_map. fold (args_of_tokens (cmd :: words)).
    unfold run_fork_child. rewrite R.
    unfold args_of_tokens at 2. rewrite argv_of_tokens.
    cbn [args_of_tokens map app nth_error]. rewrite Hexec. reflexivity.
  - pose proof (default_standard_output _ _ _ _ _ _ _ _ Hstd Hnull R)
      as E.
    rewrite E; [reflexivity |].
    intros j Hj.
    destruct (args_of_tokens_plain (cmd :: words) j Hplain) as (a & A & O);
      [lia |].
    rewrite A. intros F. injection F as ->. discriminate.
Qed.

Lemma background_child_witness :
  exists fds,
    run_fork child_kernel initial_state
      (args_of_tokens ["sleep"; "5"; "&"]) 3
    = InChild (Executes "sleep" ["sleep"; "5"] fds false) /\
    fd_get 1 fds = Some (Opened "/dev/null" O_WRONLY).
Proof.
  apply (background_child child_kernel initial_state "sleep" ["5"]);
    try reflexivity.
  - split; discriminate.
  - repeat constructor.
Defined.

Lemma record_pair_empty (i : nat) : record_pair i [] = Some [i; i + 1].
Proof. reflexivity. Qed.

Lemma store_null_after (front : list string) (n : nat) (rest : arg_array) :
  store_null (List.length front + n) (map Some front ++ rest)%list
  = (map Some front ++ store_null n rest)%list.
Proof.
  induction front as [| t front IH]; simpl; [reflexivity | now rewrite IH].
Qed.

(** X19.  A foreground command followed by one operator and a file that
    opens is executed with the words before the operator as argument
    vector and with the stream of that operator on the file: [>] puts
    standard output on it, created or truncated, [<] standard input,
    read-only. *)
Theorem single_redirection_runs_command
  (k : kernel) (st : shell_state) (cmd : string) (words : list string)
  (op t : string) :
  k_fork k = 0%Z ->
  std_streams_open (k_fds k) ->
  Forall (fun w => is_operator w = false) (cmd :: words) ->
  is_operator op = true ->
  t <> "&" ->
  k_can_open k t (flags_of_operator op) = true ->
  k_can_exec k cmd = true ->
  let tokens := ((cmd :: words) ++ [op; t])%list in
  exists fds,
    run_fork k st (args_of_tokens tokens) (List.length tokens)
    = InChild (Executes cmd (cmd :: words) fds true) /\
    fd_get (if op =? ">" then 1%Z else 0%Z) fds
    = Some (Opened t (flags_of_operator op)).
Proof.
  intros Hfork Hstd Hplain Hop Ht Hopen Hexec tokens.
  set (front := cmd :: words) in *.
  set (j := List.length front).
  assert (Hlen : List.length tokens = j + 2)
    by (unfold tokens; rewrite length_app; reflexivity).
  assert (A : nth_error (args_of_tokens tokens) j = Some (Some op)).
  { apply args_of_tokens_slot. unfold tokens.
    rewrite nth_error_app2, Nat.sub_diag by (unfold j; lia). reflexivity. }
  assert (T : nth_error (args_of_tokens tokens) (j + 1) = Some (Some t)).
  { apply args_of_tokens_slot. unfold tokens.
    rewrite nth_error_app2 by (unfold j; lia).
    replace (j + 1 - List.length front) with 1 by (unfold j; lia).
    reflexivity. }
  assert (Hs : strip_background st (args_of_tokens tokens)
                 (List.length tokens)
               = Some (args_of_tokens tokens, List.length tokens, 0%Z)).
  { apply strip_background_plain.
    - unfold tokens, front. discriminate.
    - unfold tokens. change [op; t] with ([op] ++ [t])%list.
      rewrite app_assoc, last_last. exact Ht. }
  (* the resolver succeeds *)
  assert (R : exists fds,
             redirection (k_can_open k) (k_garbage k) (k_fds k)
               (args_of_tokens tokens) (List.length tokens) 0
             = RedirDone fds (map Some front ++ [None; None; None])%list).
  { unfold redirection.
    destruct (sys_open (k_can_open k) (Some "/dev/null") O_WRONLY (k_fds k))
      as [fds1 out_null].
    destruct (sys_open (k_can_open k) (Some "/dev/null") O_RDONLY fds1)
      as [fds2 in_null].
    replace (List.length tokens - 1) with (j + 1) by lia.
    rewrite redirection_loop_app, redirection_loop_plain.
    2: { intros i Hi.
         destruct (args_of_tokens_plain front i Hplain) as (a & Ha & Oa);
           [unfold j in Hi; lia |].
         exists a. split; [| exact Oa].
         apply args_of_tokens_slot. apply args_of_tokens_slot_inv in Ha.
         unfold tokens. rewrite nth_error_app1 by (unfold j in Hi; lia).
         exact Ha. }
    cbn [redirection_loop Nat.add]. unfold redirection_body. rewrite A.
    assert (Args : remove_args [j; j + 1] (args_of_tokens tokens)
                   = (map Some front ++ [None; None; None])%list).
    { unfold remove_args, args_of_tokens, tokens. cbn [fold_left].
      rewrite map_app, <- app_assoc. cbn [map app].
      pose proof (store_null_after front 0 [Some op; Some t; None]) as E0.
      rewrite Nat.add_0_r in E0. unfold j. rewrite E0. cbn [store_null].
      rewrite (store_null_after front 1). reflexivity. }
    unfold is_operator in Hop. unfold flags_of_operator in Hopen.
    destruct (String.eqb_spec op ">") as [-> | Hne].
    - cbn [String.eqb Ascii.eqb Bool.eqb].
      unfold output_branch. rewrite T.
      cbn [r_fds input_file output_file args_to_remove].
      unfold sys_open at 1. rewrite Hopen.
      destruct (Z.eqb_spec (Z.of_nat (lowest_free fds2)) (-1)); [lia |].
      rewrite record_pair_empty. cbn [args_to_remove].
      rewrite Args. eexists. reflexivity.
    - cbn [orb] in Hop. rewrite Hop.
      unfold input_branch. rewrite T.
      cbn [r_fds input_file output_file args_to_remove].
      unfold sys_open at 1. rewrite Hopen.
      destruct (Z.eqb_spec (Z.of_nat (lowest_free fds2)) (-1)); [lia |].
      rewrite record_pair_empty. cbn [args_to_remove].
      rewrite Args. eexists. reflexivity. }
  destruct R as [fds R]. exists fds. split.
  - unfold run_fork. rewrite Hs, Hfork. cbn [Z.eqb].
    unfold run_fork_child. rewrite R. rewrite argv_of_tokens.
    unfold front. cbn [map app nth_error]. rewrite Hexec. reflexivity.
  - unfold is_operator in Hop. unfold flags_of_operator.
    destruct (String.eqb_spec op ">") as [-> | Hne].
    + apply (last_output_target_on_stdout _ _ _ _ _ _ _ _ j t Hstd R);
        try assumption; lia.
    + cbn [orb] in Hop. apply String.eqb_eq in Hop. subst op.
      apply (last_input_target_on_stdin _ _ _ _ _ _ _ _ j t Hstd R);
        try assumption; lia.
Qed.

Lemma single_redirection_runs_command_witness :
  exists fds,
    run_fork child_kernel initial_state
      (args_of_tokens ["ls"; "-l"; ">"; "out.txt"]) 4
    = InChild (Executes "ls" ["ls"; "-l"] fds true) /\
    fd_get 1 fds = Some (Opened "out.txt" O_WRONLY_CREAT_TRUNC).
Proof.
  apply (single_redirection_runs_command child_kernel initial_state
           "ls" ["-l"] ">" "out.txt"); try reflexivity.
  - split; discriminate.
  - repeat constructor.
  - discriminate.
Defined.

(** ** The dispatcher *)

Lemma last_slot (first : string) (rest : list string) :
  nth_error (args_of_tokens (first :: rest)) (List.length rest)
  = Some (Some (last (first :: rest) "")).
Proof.
  assert (Hne : first :: rest <> []) by discriminate.
  destruct (exists_last Hne) as (front & t & E). rewrite E, last_last.
  replace (List.length rest) with (List.length front).
  - apply nth_error_last_token.
  - apply (f_equal (@List.length string)) in E.
    rewrite length_app in E. simpl in E. lia.
Qed.

Lemma first_slot (first : string) (rest : list string) :
  nth_error (args_of_tokens (first :: rest)) 0 = Some (Some first).
Proof. reflexivity. Qed.

Lemma store_arg_first (first : string) (rest : list string) (s : string) :
  nth_error (store_arg (List.length rest) s (args_of_tokens (first :: rest))) 0
  = Some (Some match rest with [] => s | _ => first end).
Proof. destruct rest; reflexivity. Qed.

(** X20.  [status] and [exit] are recognised by the first word alone:
    whatever words follow, and whatever [fork] would answer, [status]
    prints the stored status and leaves the state as it is, and [exit]
    goes to the exit routine; no child is created. *)
Theorem builtins_ignore_arguments
  (k : kernel) (st : shell_state) (rest : list string) :
  process_command k st (args_of_tokens ("status" :: rest))
    (List.length ("status" :: rest))
  = InParent (ShellContinues st (status_command st)) /\
  process_command k st (args_of_tokens ("exit" :: rest))
    (List.length ("exit" :: rest))
  = InParent ShellCallsExit.
Proof.
  split; unfold process_command; rewrite first_slot;
    cbn [first_char Ascii.eqb Bool.eqb orb];
    match goal with
    | |- context [List.length (?c :: rest)] =>
        change (List.length (c :: rest)) with (S (List.length rest))
    end;
    cbv iota beta; rewrite last_slot, store_arg_first;
    destruct rest; reflexivity.
Qed.

Lemma match_leading_slash (A : Type) (a : string) (x y : A) :
  match a with
  | String "/" _ => x
  | _ => y
  end = if Ascii.eqb (first_char a) "/" then x else y.
Proof.
  destruct a as [| c a']; [reflexivity |]. cbn [first_char].
  destruct (Ascii.eqb_spec c "/") as [-> | Hc]; [reflexivity |].
  destruct c as [[] [] [] [] [] [] [] []]; try reflexivity.
  contradiction Hc. reflexivity.
Qed.

(** X21.  [cd] with one argument, the path fitting the array it is
    built in, changes to that argument when it starts with a slash and to
    the working directory followed by a slash and the argument
    otherwise; when the directory cannot be entered the failure is
    reported, and either way the shell goes on with its state
    untouched. *)
Theorem cd_with_argument (k : kernel) (st : shell_state) (dir : string) :
  let target := if Ascii.eqb (first_char dir) "/" then dir
                else k_cwd k ++ "/" ++ dir in
  String.length target < MAX_COMMAND_LENGTH ->
  process_command k st (args_of_tokens ["cd"; dir ++ nl]) 2
  = InParent
      (ShellContinues st
         (Chdir (Some target)
          :: if k_chdir k (Some target) then []
             else [Perror "Error changing directory"])).
Proof.
  intros target Hlen. unfold process_command.
  cbn [args_of_tokens map app nth_error first_char].
  cbn [Ascii.eqb Bool.eqb orb].
  rewrite chop_newline_app.
  cbn [store_arg nth_error String.eqb Ascii.eqb Bool.eqb].
  unfold change_directory. cbn [Nat.eqb nth_error].
  rewrite match_leading_slash. fold target.
  destruct (Nat.leb_spec MAX_COMMAND_LENGTH (String.length target)); [lia |].
  destruct (k_chdir k (Some target)); reflexivity.
Qed.

Lemma cd_with_argument_witness :
  process_command parent_kernel initial_state
    (args_of_tokens ["cd"; "src" ++ nl]) 2
  = InParent (ShellContinues initial_state [Chdir (Some "/tmp/src")]).
Proof.
  apply (cd_with_argument parent_kernel initial_state "src").
  unfold MAX_COMMAND_LENGTH. simpl. lia.
Defined.



(** ** The exit routine *)

(** X22.  The exit routine does not return: in whatever process group
    the shell is and whatever it does with SIGTERM, a running shell is no
    longer running afterwards - killed by the signal or exited with
    code 0 - and no process appears or disappears. *)
Theorem exit_shell_does_not_return (self : process) (others : list process) :
  p_status self = Running ->
  let (self', others') := exit_shell self others in
  (p_status self' = Killed SIGTERM \/ p_status self' = Exited 0) /\
  p_pid self' = p_pid self /\
  map p_pid others' = map p_pid others.
Proof.
  intros Hrun. unfold exit_shell.
  assert (Hpid : forall p, p_pid (sys_kill self (- p_pgid self) SIGTERM p)
                           = p_pid p).
  { intros p. unfold sys_kill, deliver.
    destruct (kill_addresses self (- p_pgid self) p); [| reflexivity].
    destruct (p_status p); try reflexivity.
    destruct (p_action p SIGTERM); reflexivity. }
  assert (Hmap : map p_pid (map (sys_kill self (- p_pgid self) SIGTERM) others)
                 = map p_pid others).
  { rewrite map_map. apply map_ext. exact Hpid. }
  assert (Hst : p_status (sys_kill self (- p_pgid self) SIGTERM self) = Running
                \/ p_status (sys_kill self (- p_pgid self) SIGTERM self)
                   = Killed SIGTERM).
  { unfold sys_kill.
    destruct (kill_addresses self (- p_pgid self) self); [| now left].
    rewrite deliver_running by assumption.
    destruct (p_action self SIGTERM); auto. }
  destruct Hst as [E | E]; rewrite E.
  - cbn [p_status p_pid]. repeat split; auto.
  - repeat split; auto.
Qed.

Lemma exit_shell_does_not_return_witness :
  let (self', others') := exit_shell shell_process background_children in
  (p_status self' = Killed SIGTERM \/ p_status self' = Exited 0) /\
  p_pid self' = p_pid shell_process /\
  map p_pid others' = map p_pid background_children.
Proof.
  apply (exit_shell_does_not_return shell_process background_children).
  reflexivity.
Defined.

(** ** What a pass of the main loop does to the count *)

Lemma run_fork_count (k : kernel) (st st' : shell_state) (args : arg_array)
  (count : nat) (trace : list event) :
  run_fork k st args count = InParent (ShellContinues st' trace) ->
  num_background_process st' = num_background_process st \/
  num_background_process st' = int_incr (num_background_process st).
Proof.
  unfold run_fork.
  destruct (strip_background st args count) as [[[args1 count1] bg] |].
  - destruct (k_fork k =? -1)%Z; [discriminate |].
    destruct (k_fork k =? 0)%Z; [discriminate |].
    unfold run_fork_parent. destruct (bg =? 0)%Z; intros H;
      injection H as <- _; [left | right]; reflexivity.
  - destruct (k_fork k =? 0)%Z; discriminate.
Qed.

Lemma process_command_count (k : kernel) (st st' : shell_state)
  (args : arg_array) (count : nat) (trace : list event) :
  process_command k st args count = InParent (ShellContinues st' trace) ->
  num_background_process st' = num_background_process st \/
  num_background_process st' = int_incr (num_background_process st).
Proof.
  unfold process_command.
  destruct (nth_error args 0) as [[first |] |]; try discriminate.
  destruct (Ascii.eqb (first_char first) "#"
            || Ascii.eqb (first_char first) newline)%bool.
  { intros H. injection H as <- _. now left. }
  destruct count as [| last]; [discriminate |].
  destruct (nth_error args last) as [[a |] |]; try discriminate.
  destruct (nth_error (store_arg last (chop_newline a) args) 0)
    as [[cmd |] |]; try discriminate.
  destruct (cmd =? "exit"); [discriminate |].
  destruct (cmd =? "status").
  { intros H. injection H as <- _. now left. }
  destruct (cmd =? "cd").
  { destruct (change_directory k _ _); [| discriminate].
    intros H. injection H as <- _. now left. }
  apply run_fork_count.
Qed.

(** X23.  Whatever line is read, a pass of the main loop after which
    the shell goes on leaves the count of background children as it was
    or increments it once as a C [int]: below [INT_MAX] the count never
    goes down and rises by one at most. *)
Theorem pass_increments_count_at_most_once
  (k : kernel) (st st' : shell_state) (line : string) (trace : list event) :
  shell_loop_pass k st line = InParent (ShellContinues st' trace) ->
  (num_background_process st' = num_background_process st \/
   num_background_process st' = int_incr (num_background_process st)) /\
  ((INT_MIN <= num_background_process st < INT_MAX)%Z ->
   (num_background_process st <= num_background_process st'
    <= num_background_process st + 1)%Z).
Proof.
  intros H.
  assert (C : num_background_process st' = num_background_process st \/
              num_background_process st'
              = int_incr (num_background_process st)).
  { revert H. unfold shell_loop_pass.
    destruct (check_background_processes st (k_reap k)) as [st1 reaped] eqn:C.
    assert (En : num_background_process st1 = num_background_process st).
    { unfold check_background_processes in C.
      destruct (0 <? num_background_process st)%Z;
        [destruct (0 <? w_ret (k_reap k))%Z |];
        injection C as <- _; auto. }
    destruct (expand_pid (k_bufsize k) (k_getpid k) line) as [fullCommand |];
      [| discriminate].
    destruct (MAX_ARGUMENTS <=? List.length (tokenize fullCommand))%nat;
      [discriminate |].
    destruct (process_command k st1 (args_of_tokens (tokenize fullCommand))
                (List.length (tokenize fullCommand)))
      as [r | [st2 tr | code tr | |]] eqn:P; try discriminate.
    intros H. injection H as <- _.
    apply process_command_count in P. rewrite <- En. exact P. }
  split; [exact C |].
  intros Hrange. destruct C as [-> | ->]; [lia |].
  rewrite int_incr_in_range by assumption. lia.
Qed.

Lemma pass_increments_count_at_most_once_witness :
  (num_background_process
     {| current_foreground_pid := (-5)%Z; exit_method := (-5)%Z;
        z_mode := 0%Z; num_background_process := int_incr 0 |}
   = num_background_process initial_state \/
   num_background_process
     {| current_foreground_pid := (-5)%Z; exit_method := (-5)%Z;
        z_mode := 0%Z; num_background_process := int_incr 0 |}
   = int_incr (num_background_process initial_state)) /\
  ((INT_MIN <= num_background_process initial_state < INT_MAX)%Z ->
   (num_background_process initial_state
    <= num_background_process
         {| current_foreground_pid := (-5)%Z; exit_method := (-5)%Z;
            z_mode := 0%Z; num_background_process := int_incr 0 |}
    <= num_background_process initial_state + 1)%Z).
Proof.
  apply (pass_increments_count_at_most_once parent_kernel initial_state _
           ("sleep 5 &" ++ nl)
           [Out ": "; Out ("Background pid is 700" ++ nl)]).
  reflexivity.
Defined.

(** ** Comments and blank lines *)

Lemma no_dollar_no_token (s : string) :
  no_dollar s = true -> strstr s "$$" = None.
Proof.
  intros H. apply find_token_none_strstr.
  pose proof (token_free_no_dollar s H "") as E.
  now rewrite str_app_nil_r in E.
Qed.

Lemma no_dollar_repeat_space (n : nat) : no_dollar (str_repeat " " n) = true.
Proof. induction n as [| n IH]; simpl; auto. Qed.

Lemma tokenize_blank (n : nat) : tokenize (str_repeat " " n ++ nl) = [nl].
Proof.
  unfold tokenize. induction n as [| n IH]; [reflexivity | exact IH].
Qed.

(** X24.  A line of nothing but spaces and its newline does nothing:
    the pass shows the prompt after whatever the reaper had to say, uses
    no child, and hands on the state the reaper left. *)
Theorem blank_line_is_skipped (k : kernel) (st : shell_state) (n : nat) :
  shell_loop_pass k st (str_repeat " " n ++ nl)
  = InParent
      (ShellContinues (fst (check_background_processes st (k_reap k)))
         (snd (check_background_processes st (k_reap k)) ++ [Out ": "])).
Proof.
  unfold shell_loop_pass.
  destruct (check_background_processes st (k_reap k)) as [st1 reaped].
  assert (E : expand_pid (k_bufsize k) (k_getpid k) (str_repeat " " n ++ nl)
              = Some (str_repeat " " n ++ nl)).
  { unfold expand_pid.
    assert (T : strstr (str_repeat " " n ++ nl) "$$" = None).
    { apply no_dollar_no_token.
      assert (A : forall a b, no_dollar a = true -> no_dollar b = true ->
                              no_dollar (a ++ b) = true).
      { intros a b Ha Hb. induction a as [| c a IH]; [exact Hb |].
        simpl in *. apply andb_prop in Ha as [-> Ha]. now rewrite IH. }
      apply A; [apply no_dollar_repeat_space | reflexivity]. }
    destruct (String.length (str_repeat " " n ++ nl));
      cbn [expand_pid_loop]; now rewrite T. }
  rewrite E, tokenize_blank. reflexivity.
Qed.

Lemma strtok_loop_first (text : string) :
  forall current,
    current <> EmptyString ->
    exists w ws, strtok_loop current text = w :: ws /\
                 first_char w = first_char current.
Proof.
  induction text as [| c text IH]; intros current Hne.
  - destruct current; [contradiction |]. eexists. eexists.
    split; reflexivity.
  - cbn [strtok_loop]. destruct (Ascii.eqb c " ").
    + destruct current; [contradiction |]. eexists. eexists.
      split; reflexivity.
    + destruct (IH (current ++ String c "")) as (w & ws & E & F).
      * destruct current; discriminate.
      * exists w, ws. split; [exact E |]. rewrite F.
        destruct current; [contradiction | reflexivity].
Qed.

(** X28.  A line that begins with [#] is a comment: when it holds no
    token to expand and few enough words for the argument array, the pass
    shows the prompt after whatever the reaper had to say and does
    nothing else. *)
Theorem comment_line_is_skipped (k : kernel) (st : shell_state)
  (text : string) :
  strstr (String "#" text) "$$" = None ->
  List.length (tokenize (String "#" text)) < MAX_ARGUMENTS ->
  shell_loop_pass k st (String "#" text)
  = InParent
      (ShellContinues (fst (check_background_processes st (k_reap k)))
         (snd (check_background_processes st (k_reap k)) ++ [Out ": "])).
Proof.
  intros Htok Hlen. unfold shell_loop_pass.
  destruct (check_background_processes st (k_reap k)) as [st1 reaped].
  assert (E : expand_pid (k_bufsize k) (k_getpid k) (String "#" text)
              = Some (String "#" text)).
  { unfold expand_pid.
    destruct (String.length (String "#" text));
      cbn [expand_pid_loop]; now rewrite Htok. }
  rewrite E.
  destruct (Nat.leb_spec MAX_ARGUMENTS
              (List.length (tokenize (String "#" text)))); [lia |].
  destruct (strtok_loop_first text "#") as (w & ws & T & F);
    [discriminate |].
  assert (T' : tokenize (String "#" text) = w :: ws) by exact T.
  rewrite T'. unfold process_command. rewrite first_slot, F.
  reflexivity.
Qed.

Lemma comment_line_is_skipped_witness :
  shell_loop_pass parent_kernel initial_state
    (String "#" (" remove the old logs" ++ nl))
  = InParent
      (ShellContinues
         (fst (check_background_processes initial_state
                 (k_reap parent_kernel)))
         (snd (check_background_processes initial_state
                 (k_reap parent_kernel)) ++ [Out ": "])).
Proof.
  apply (comment_line_is_skipped parent_kernel initial_state
           (" remove the old logs" ++ nl)).
  - reflexivity.
  - unfold MAX_ARGUMENTS. simpl. lia.
Defined.

(** ** The signal handler *)

Lemma exiting_banner_bytes (beyond : string) :
  sys_write exiting_banner 31 beyond = exiting_banner ++ String zero "".
Proof. reflexivity. Qed.

Lemma entering_banner_bytes (beyond : string) :
  sys_write entering_banner 53 beyond
  = entering_banner ++ String zero (str_take 2 beyond).
Proof. reflexivity. Qed.

(** X25.  Two deliveries of the stop signal bring the shell back to the
    state it was in, having first announced the entry into
    foreground-only mode and then the exit from it, each followed by a
    prompt; the bytes written are those of the banner and, the counts
    given to [write] being larger than the banners, the terminator and,
    for the first banner, two bytes of whatever lies behind it. *)
Theorem stop_signal_twice (beyond1 beyond2 : string) (st : shell_state) :
  z_mode st = 0%Z ->
  let (st1, trace1) := catch_SIGTSTP beyond1 st in
  let (st2, trace2) := catch_SIGTSTP beyond2 st1 in
  z_mode st1 = 1%Z /\
  st2 = st /\
  trace1 = [Out (entering_banner ++ String zero (str_take 2 beyond1));
            Out ": "] /\
  trace2 = [Out (exiting_banner ++ String zero ""); Out ": "].
Proof.
  intros Hz. unfold catch_SIGTSTP. rewrite Hz. cbn [Z.eqb set_z_mode z_mode].
  rewrite exiting_banner_bytes, entering_banner_bytes.
  repeat split. destruct st; simpl in *; now subst.
Qed.

Lemma stop_signal_twice_witness :
  let (st1, trace1) := catch_SIGTSTP "xyz" initial_state in
  let (st2, trace2) := catch_SIGTSTP "xyz" st1 in
  z_mode st1 = 1%Z /\
  st2 = initial_state /\
  trace1 = [Out (entering_banner ++ String zero (str_take 2 "xyz"));
            Out ": "] /\
  trace2 = [Out (exiting_banner ++ String zero ""); Out ": "].
Proof.
  apply (stop_signal_twice "xyz" "xyz" initial_state). reflexivity.
Defined.

(** X26.  The handler decides what the launcher does with [&]: after one
    stop signal a command that ends in [&] is waited for like a
    foreground command and nothing is added to the count of background
    children; after a second one such a command is launched in the
    background again and the count is incremented as a C [int], which
    below [INT_MAX] adds one to it. *)
Theorem stop_signal_switches_background
  (beyond1 beyond2 : string) (k : kernel) (st : shell_state)
  (tokens : list string) :
  z_mode st = 0%Z ->
  (0 < k_fork k)%Z ->
  let st1 := fst (catch_SIGTSTP beyond1 st) in
  let st2 := fst (catch_SIGTSTP beyond2 st1) in
  let waited :=
    set_exit_method (set_current_foreground_pid st1 (k_fork k))
      (waitpid_store (k_wait k) (exit_method st)) in
  run_fork k st1 (args_of_tokens (tokens ++ ["&"]))
    (List.length (tokens ++ ["&"]))
  = InParent
      (ShellContinues waited
         (WaitFor (k_fork k) 0%Z :: check_termination waited)) /\
  num_background_process waited = num_background_process st /\
  run_fork k st2 (args_of_tokens (tokens ++ ["&"]))
    (List.length (tokens ++ ["&"]))
  = InParent
      (ShellContinues
         (set_num_background_process st2
            (int_incr (num_background_process st)))
         [Out ("Background pid is " ++ dec (k_fork k) ++ nl)]) /\
  ((INT_MIN <= num_background_process st < INT_MAX)%Z ->
   int_incr (num_background_process st)
   = (num_background_process st + 1)%Z).
Proof.
  intros Hz Hfork st1 st2 waited.
  assert (Z1 : z_mode st1 = 1%Z).
  { unfold st1, catch_SIGTSTP. now rewrite Hz. }
  assert (Z2 : z_mode st2 = 0%Z).
  { unfold st2, catch_SIGTSTP. now rewrite Z1. }
  assert (E1 : exit_method st1 = exit_method st /\
               num_background_process st1 = num_background_process st).
  { unfold st1, catch_SIGTSTP. destruct (z_mode st =? 0)%Z; auto. }
  assert (E2 : num_background_process st2 = num_background_process st).
  { unfold st2, catch_SIGTSTP. destruct (z_mode st1 =? 0)%Z; apply E1. }
  destruct E1 as [Ee En].
  split; [| split; [| split]].
  - unfold run_fork. rewrite strip_background_marker, Z1. cbn [Z.eqb].
    destruct (Z.eqb_spec (k_fork k) (-1)); [lia |].
    destruct (Z.eqb_spec (k_fork k) 0); [lia |].
    unfold run_fork_parent. cbn [Z.eqb]. unfold waited.
    cbn [exit_method set_current_foreground_pid]. rewrite Ee. reflexivity.
  - unfold waited. cbn [num_background_process set_exit_method
                          set_current_foreground_pid]. exact En.
  - unfold run_fork. rewrite strip_background_marker, Z2. cbn [Z.eqb].
    destruct (Z.eqb_spec (k_fork k) (-1)); [lia |].
    destruct (Z.eqb_spec (k_fork k) 0); [lia |].
    unfold run_fork_parent. cbn [Z.eqb]. rewrite E2. reflexivity.
  - apply int_incr_in_range.
Qed.

Lemma stop_signal_switches_background_witness :
  run_fork parent_kernel foreground_only_state
    (args_of_tokens ["sleep"; "5"; "&"]) 3
  = InParent
      (ShellContinues
         {| current_foreground_pid := 700%Z; exit_method := 768%Z;
            z_mode := 1%Z; num_background_process := 0%Z |}
         [WaitFor 700%Z 0%Z]) /\
  0%Z = 0%Z /\
  run_fork parent_kernel initial_state (args_of_tokens ["sleep"; "5"; "&"]) 3
  = InParent
      (ShellContinues
         (set_num_background_process initial_state (int_incr 0))
         [Out ("Background pid is 700" ++ nl)]) /\
  ((INT_MIN <= 0 < INT_MAX)%Z -> int_incr 0 = (0 + 1)%Z).
Proof.
  apply (stop_signal_switches_background "" "" parent_kernel initial_state
           ["sleep"; "5"]); reflexivity.
Defined.

(** ** Launching and reaping together *)

(** X27.  The reaper asks the kernel only once a background command has
    been launched: in a fresh shell it is silent and issues no
    [waitpid], and after a background launch it polls without blocking
    and, when the kernel hands over a finished child, names its pid and
    how it ended. *)
Theorem reaper_follows_background_launch
  (k : kernel) (st : shell_state) (tokens : list string)
  (reply : wait_reply) :
  num_background_process st = 0%Z ->
  z_mode st = 0%Z ->
  (0 < k_fork k)%Z ->
  (0 < w_ret reply)%Z ->
  check_background_processes st reply = (st, []) /\
  exists st1 trace1,
    run_fork k st (args_of_tokens (tokens ++ ["&"]))
      (List.length (tokens ++ ["&"]))
    = InParent (ShellContinues st1 trace1) /\
    snd (check_background_processes st1 reply)
    = [WaitFor (-1)%Z WNOHANG;
       Out ("background pid " ++ dec (w_ret reply) ++ " is done: ");
       Out (status_line (w_status reply))].
Proof.
  intros Hn Hz Hfork Hret. split.
  - apply reaper_idle. lia.
  - destruct (Z.eqb_spec (k_fork k) (-1)); [lia |].
    destruct (Z.eqb_spec (k_fork k) 0); [lia |].
    eexists. eexists. split.
    + unfold run_fork. rewrite strip_background_marker, Hz. cbn [Z.eqb].
      destruct (Z.eqb_spec (k_fork k) (-1)); [lia |].
      destruct (Z.eqb_spec (k_fork k) 0); [lia |].
      unfold run_fork_parent. cbn [Z.eqb]. reflexivity.
    + rewrite reaper_collects; [reflexivity | | assumption].
      cbn [num_background_process set_num_background_process].
      rewrite Hn. reflexivity.
Qed.

Lemma reaper_follows_background_launch_witness :
  check_background_processes initial_state (mkReply 700 0)
  = (initial_state, []) /\
  exists st1 trace1,
    run_fork parent_kernel initial_state
      (args_of_tokens ["sleep"; "5"; "&"]) 3
    = InParent (ShellContinues st1 trace1) /\
    snd (check_background_processes st1 (mkReply 700 0))
    = [WaitFor (-1)%Z WNOHANG;
       Out ("background pid 700 is done: ");
       Out (status_line 0)].
Proof.
  apply (reaper_follows_background_launch parent_kernel initial_state
           ["sleep"; "5"] (mkReply 700 0)); reflexivity.
Defined.
